(** * Metadata interpreter of [pdf_parse_restapi_updatecolumnlevel.py]

    A shallow embedding of [extract_table_details_from_markdown]: the
    row-by-row state machine that turns the rows of the markdown tables
    into a mapping from table name to metadata record.

    Strings are Rocq [string]s, one [ascii] per character of the Python
    [str].  Python dictionaries keep insertion order, and assigning to an
    existing key keeps the key's position: they are modelled as
    association lists with an in-place [Dict.set]. *)

From Stdlib Require Import String Ascii List Bool Arith Lia.
Import ListNotations.
Open Scope string_scope.
Open Scope list_scope.

Set Implicit Arguments.

(** ** Ordered dictionaries with string keys *)

Module Dict.
Section Ops.
Variable V : Type.

Definition t := list (string * V).

Definition empty : t := [].

(** [d[k]]; [None] stands for Python's [KeyError]. *)
Fixpoint get (k : string) (d : t) : option V :=
  match d with
  | [] => None
  | (k', v) :: d' => if String.eqb k' k then Some v else get k d'
  end.

(** [d[k] = v]: overwrite in place, or append a new key at the end. *)
Fixpoint set (k : string) (v : V) (d : t) : t :=
  match d with
  | [] => [(k, v)]
  | (k', v') :: d' =>
      if String.eqb k' k then (k, v) :: d' else (k', v') :: set k v d'
  end.

Definition keys (d : t) : list string := map fst d.

End Ops.
Arguments empty {V}.
End Dict.

(** ** Data model *)

(** The five cells the loop reads from a row (lines 216-220), already
    converted with [str(...).strip()]: a missing cell reads ["nan"], a
    missing column reads [""]. *)
Record Row := mkRow {
  col1 : string;   (* entry indicator *)
  col2 : string;   (* 'Table Name' and field name *)
  col3 : string;   (* table name and data type *)
  col4 : string;   (* description *)
  col5 : string    (* foreign key or other info *)
}.

(** One parsed markdown file: the rows of [df], in index order. *)
Definition Document := list Row.

(** [{"type": .., "description": .., "foreign_key": ..}] *)
Record FieldInfo := mkFieldInfo {
  f_type : string;
  f_description : string;
  f_foreign_key : string
}.

Definition Fields := Dict.t FieldInfo.

(** The record stored under [metadata[table_name]]; [None] is Python's
    [None]. *)
Record TableMetadata := mkTableMetadata {
  tm_table_name : string;                (* "Table Name" *)
  tm_table_synonym : option string;      (* "Table Synonym" *)
  tm_table_description : option string;  (* "Table Description" *)
  tm_module_name : option string;        (* "Module Name" *)
  tm_key_fields : Fields;                (* "Key Fields" *)
  tm_normal_fields : Fields              (* "Normal Fields" *)
}.

Definition Metadata := Dict.t TableMetadata.

(** The local variables of [extract_table_details_from_markdown] that
    live across rows and across files.  The two [current_*_Fullname]
    variables are unbound until the first section start; they are only
    read while the matching section flag is set, which the same branch
    sets, so [None] stands for both "unbound" and Python's [None]. *)
Record State := mkState {
  in_key_field_section : bool;
  in_field_section : bool;
  table_name : option string;
  metadata : Metadata;
  results : list string;
  current_Key_Field_Fullname : option string;
  current_Normal_Field_Fullname : option string
}.

Definition initial_state : State :=
  mkState false false None Dict.empty [] None None.

(** The exceptions the row loop can raise. *)
Inductive exn :=
| KeyError_table (k : option string)   (* metadata[table_name] *)
| KeyError_field (k : string).         (* ...["Key Fields"][name] *)

(** What one iteration of the row loop does: it runs to its end, or it
    raises; either way the assignments made so far stay. *)
Inductive outcome :=
| Continue (st : State)
| Raise (e : exn) (st : State).

(** ** Helpers *)

(** Python's [sub in s] on strings. *)
Fixpoint str_in (sub s : string) : bool :=
  if String.prefix sub s then true
  else match s with
       | EmptyString => false
       | String _ s' => str_in sub s'
       end.

(** Truth value of a Python [str]. *)
Definition truthy (s : string) : bool := negb (String.eqb s "").

(** Truth value of a variable holding [None] or a [str]. *)
Definition truthy_opt (o : option string) : bool :=
  match o with
  | None => false
  | Some s => truthy s
  end.

(** [foreign_key if foreign_key != 'nan' else ''] *)
Definition norm_foreign_key (foreign_key : string) : string :=
  if String.eqb foreign_key "nan" then "" else foreign_key.

(** [metadata[table_name]]; no key of [metadata] is [None]. *)
Definition lookup_table (st : State) : exn + string * TableMetadata :=
  match table_name st with
  | None => inl (KeyError_table None)
  | Some t =>
      match Dict.get t (metadata st) with
      | None => inl (KeyError_table (Some t))
      | Some rec => inr (t, rec)
      end
  end.

(** The two field sections run the same code on different variables. *)
Inductive section := KeyFields | NormalFields.

Definition fields_of (sec : section) (rec : TableMetadata) : Fields :=
  match sec with
  | KeyFields => tm_key_fields rec
  | NormalFields => tm_normal_fields rec
  end.

Definition with_fields (sec : section) (rec : TableMetadata) (fs : Fields)
  : TableMetadata :=
  match sec with
  | KeyFields =>
      mkTableMetadata (tm_table_name rec) (tm_table_synonym rec)
        (tm_table_description rec) (tm_module_name rec)
        fs (tm_normal_fields rec)
  | NormalFields =>
      mkTableMetadata (tm_table_name rec) (tm_table_synonym rec)
        (tm_table_description rec) (tm_module_name rec)
        (tm_key_fields rec) fs
  end.

Definition current_Fullname (sec : section) (st : State) : option string :=
  match sec with
  | KeyFields => current_Key_Field_Fullname st
  | NormalFields => current_Normal_Field_Fullname st
  end.

Definition with_metadata (st : State) (m : Metadata) : State :=
  mkState (in_key_field_section st) (in_field_section st) (table_name st)
    m (results st)
    (current_Key_Field_Fullname st) (current_Normal_Field_Fullname st).

Definition with_current_Fullname (sec : section) (st : State)
  (name : option string) : State :=
  match sec with
  | KeyFields =>
      mkState (in_key_field_section st) (in_field_section st)
        (table_name st) (metadata st) (results st)
        name (current_Normal_Field_Fullname st)
  | NormalFields =>
      mkState (in_key_field_section st) (in_field_section st)
        (table_name st) (metadata st) (results st)
        (current_Key_Field_Fullname st) name
  end.

(** [metadata[table_name][key] = value] for one of the three header
    entries; [if metadata[table_name]:] holds for every record, a dict
    of six keys, so only the lookup can fail. *)
Definition update_record (st : State)
  (upd : TableMetadata -> TableMetadata) : outcome :=
  match lookup_table st with
  | inl e => Raise e st
  | inr (t, rec) =>
      Continue (with_metadata st (Dict.set t (upd rec) (metadata st)))
  end.

Definition set_synonym (v : string) (rec : TableMetadata) : TableMetadata :=
  mkTableMetadata (tm_table_name rec) (Some v)
    (tm_table_description rec) (tm_module_name rec)
    (tm_key_fields rec) (tm_normal_fields rec).

Definition set_description (v : string) (rec : TableMetadata) : TableMetadata :=
  mkTableMetadata (tm_table_name rec) (tm_table_synonym rec)
    (Some v) (tm_module_name rec)
    (tm_key_fields rec) (tm_normal_fields rec).

Definition set_module (v : string) (rec : TableMetadata) : TableMetadata :=
  mkTableMetadata (tm_table_name rec) (tm_table_synonym rec)
    (tm_table_description rec) (Some v)
    (tm_key_fields rec) (tm_normal_fields rec).

(** The record created by a 'Table Name' row (lines 230-241). *)
Definition fresh_record (name : string) : TableMetadata :=
  mkTableMetadata name None None None Dict.empty Dict.empty.

(** ** The field row processor (lines 289-376) *)

(** [col1=='nan' and field and field!="nan"] *)
Definition is_field_header (row : Row) : bool :=
  String.eqb (col1 row) "nan" && truthy (col2 row)
  && negb (String.eqb (col2 row) "nan").

(** [next_field_entry_indicator!='nan' and next_field_name_piece!='nan'] *)
Definition has_continuation (next_row : Row) : bool :=
  negb (String.eqb (col1 next_row) "nan")
  && negb (String.eqb (col2 next_row) "nan").

(** [current_Fullname = name] followed by
    [metadata[table_name][section][name] = {type, description,
    foreign_key}]. *)
Definition create_field (sec : section) (st : State) (name : string)
  (row : Row) : outcome :=
  let st1 := with_current_Fullname sec st (Some name) in
  let entry := mkFieldInfo (col3 row) (col4 row) (norm_foreign_key (col5 row)) in
  update_record st1
    (fun rec => with_fields sec rec (Dict.set name entry (fields_of sec rec))).

(** The continuation branch: append [" " + desc] to the description of
    the current field. *)
Definition append_description (sec : section) (st : State) (row : Row)
  : outcome :=
  let desc := col4 row in
  match current_Fullname sec st with
  | Some name =>
      if truthy name
         && negb (String.eqb desc "nan")
         && negb (String.eqb desc "Unnamed: 3")
         && truthy desc
      then
        match lookup_table st with
        | inl e => Raise e st
        | inr (t, rec) =>
            match Dict.get name (fields_of sec rec) with
            | None => Raise (KeyError_field name) st
            | Some fi =>
                let full_description :=
                  (f_description fi ++ " " ++ desc)%string in
                let fi' := mkFieldInfo (f_type fi) full_description
                             (f_foreign_key fi) in
                Continue
                  (with_metadata st
                     (Dict.set t
                        (with_fields sec rec
                           (Dict.set name fi' (fields_of sec rec)))
                        (metadata st)))
            end
        end
      else Continue st
  | None => Continue st
  end.

(** [next_row] is [df.iloc[idx + 1]] when [idx + 1 < len(df)]. *)
Definition process_field_row (sec : section) (st : State) (row : Row)
  (next_row : option Row) : outcome :=
  let field := col2 row in
  if is_field_header row then
    if Nat.leb 19 (String.length field) then
      match next_row with
      | Some nr =>
          if has_continuation nr
          then create_field sec st (field ++ col2 nr)%string row
          else Continue st
      | None => Continue st
      end
    else create_field sec st field row
  else append_description sec st row.

(** ** One iteration of the row loop (lines 213-376) *)

(** The [if]/[elif] chain on [col2] (lines 225-283), first match wins.
    The test [col2 is None and col3 is None and col4 is None] of line
    280 never holds, the three being [str] values, so a row without any
    marker always reaches the final [else]. *)
Inductive row_kind :=
| TableNameRow
| TableSynonymRow
| TableCommentsRow
| ModuleNameRow
| KeyFieldSectionStart
| NormalFieldSectionStart
| DataRow.

Definition classify (row : Row) : row_kind :=
  if str_in "Table Name" (col2 row) then TableNameRow
  else if str_in "Table Synonym" (col2 row) then TableSynonymRow
  else if str_in "Table Comments" (col2 row) then TableCommentsRow
  else if str_in "Module Name" (col2 row) then ModuleNameRow
  else if str_in "Key Field Name" (col2 row) then KeyFieldSectionStart
  else if str_in "Field Name" (col2 row) then NormalFieldSectionStart
  else DataRow.

(** Which branch a data row takes: [if in_key_field_section: ... elif
    in_field_section: ...]. *)
Definition section_mode (st : State) : option section :=
  if in_key_field_section st then Some KeyFields
  else if in_field_section st then Some NormalFields
  else None.

Definition process_row (st : State) (row : Row) (next_row : option Row)
  : outcome :=
  match classify row with
  | TableNameRow =>
      Continue (mkState false false (Some (col3 row))
                  (Dict.set (col3 row) (fresh_record (col3 row)) (metadata st))
                  (results st ++ [col3 row])
                  (current_Key_Field_Fullname st)
                  (current_Normal_Field_Fullname st))
  | TableSynonymRow => update_record st (set_synonym (col3 row))
  | TableCommentsRow => update_record st (set_description (col3 row))
  | ModuleNameRow => update_record st (set_module (col3 row))
  | KeyFieldSectionStart =>
      Continue (mkState true false (table_name st) (metadata st) (results st)
                  None (current_Normal_Field_Fullname st))
  | NormalFieldSectionStart =>
      Continue (mkState false true (table_name st) (metadata st) (results st)
                  (current_Key_Field_Fullname st) None)
  | DataRow =>
      (* only process fields if we have a valid table_name *)
      if negb (truthy_opt (table_name st)) then Continue st
      else match section_mode st with
           | Some sec => process_field_row sec st row next_row
           | None => Continue st
           end
  end.

(** ** The loops *)

(** [n] iterations of [for idx, row in df.iterrows()] starting at index
    [idx].  An exception leaves the loop; the state reached so far is
    kept, since all variables outlive the [try] block. *)
Fixpoint iterrows (df : Document) (st : State) (idx n : nat)
  : State * option exn :=
  match n with
  | 0 => (st, None)
  | S n' =>
      match nth_error df idx with
      | None => (st, None)
      | Some row =>
          match process_row st row (nth_error df (idx + 1)) with
          | Raise e st' => (st', Some e)
          | Continue st' => iterrows df st' (idx + 1) n'
          end
      end
  end.

(** The body of [for file in files]: the whole document, any exception
    caught and printed by [except Exception as e]. *)
Definition process_file (st : State) (df : Document) : State :=
  fst (iterrows df st 0 (List.length df)).

Definition process_files (st : State) (files : list Document) : State :=
  fold_left process_file files st.

(** What the function hands back to its caller. *)
Inductive returned :=
| ReturnedEmptyList                      (* [return []] *)
| ReturnedMetadata (m : Metadata).       (* [return metadata] *)

Definition final_state (files : list Document) : State :=
  process_files initial_state files.

Definition extract_table_details_from_markdown (files : list Document)
  : returned :=
  match files with
  | [] => ReturnedEmptyList
  | _ => ReturnedMetadata (metadata (final_state files))
  end.

(** ** Vocabulary of the statements *)

(** The names in the two field collections of every record, in order. *)
Definition field_names (m : Metadata)
  : list (string * (list string * list string)) :=
  map (fun kv => (fst kv, (Dict.keys (tm_key_fields (snd kv)),
                           Dict.keys (tm_normal_fields (snd kv))))) m.

(** [list(dict.fromkeys(l))]: [l] without its later duplicates. *)
Definition dedup (l : list string) : list string :=
  fold_left (fun acc x => if existsb (String.eqb x) acc then acc
                          else acc ++ [x]) l [].

(** The states the row loop can be in, whatever the documents. *)
Inductive reachable : State -> Prop :=
| reach_init : reachable initial_state
| reach_continue st row next_row st' :
    reachable st -> process_row st row next_row = Continue st' ->
    reachable st'
| reach_raise st row next_row e st' :
    reachable st -> process_row st row next_row = Raise e st' ->
    reachable st'.

Definition section_flag (sec : section) (st : State) : bool :=
  match sec with
  | KeyFields => in_key_field_section st
  | NormalFields => in_field_section st
  end.

(** What every reachable state satisfies: the current table has a
    record, at most one section is open, and the current field of an
    open section is an entry of the current record. *)
Record wf (st : State) : Prop := mkWf {
  wf_table : forall t, table_name st = Some t ->
             exists rec, Dict.get t (metadata st) = Some rec;
  wf_flags : in_key_field_section st && in_field_section st = false;
  wf_current : forall sec name t rec,
      section_flag sec st = true ->
      current_Fullname sec st = Some name ->
      table_name st = Some t ->
      Dict.get t (metadata st) = Some rec ->
      exists fi, Dict.get name (fields_of sec rec) = Some fi;
  wf_keys : Dict.keys (metadata st) = dedup (results st)
}.

(** Two states that the rows to come cannot tell apart as far as the
    record of table [T] is concerned. *)
Record same_view (T : string) (s1 s2 : State) : Prop := mkSameView {
  sv_table : table_name s1 = table_name s2;
  sv_key : in_key_field_section s1 = in_key_field_section s2;
  sv_normal : in_field_section s1 = in_field_section s2;
  sv_current : forall sec, section_flag sec s1 = true ->
               current_Fullname sec s1 = current_Fullname sec s2;
  sv_record : forall t, table_name s1 = Some t ->
              Dict.get t (metadata s1) = Dict.get t (metadata s2);
  sv_T : Dict.get T (metadata s1) = Dict.get T (metadata s2)
}.

(** Two iterations that end alike, in states that look alike. *)
Definition same_outcome (T : string) (o1 o2 : outcome) : Prop :=
  match o1, o2 with
  | Continue a, Continue b => same_view T a b
  | Raise e a, Raise e' b => e = e' /\ same_view T a b
  | _, _ => False
  end.

(** After the row, [name] is the current field of section [sec] and the
    record of table [t] holds under [name] the entry built from the
    row's columns 3 to 5. *)
Definition entry_stored (sec : section) (t name : string) (row : Row)
  (st' : State) : Prop :=
  current_Fullname sec st' = Some name
  /\ exists rec',
       Dict.get t (metadata st') = Some rec'
       /\ Dict.get name (fields_of sec rec')
          = Some (mkFieldInfo (col3 row) (col4 row)
                    (if String.eqb (col5 row) "nan" then ""
                     else col5 row)).

(** ** Sample rows and documents *)

Definition row_table (name : string) : Row :=
  mkRow "nan" "Table Name" name "nan" "nan".

Definition row_synonym (syn : string) : Row :=
  mkRow "nan" "Table Synonym" syn "nan" "nan".

Definition row_key_section : Row :=
  mkRow "nan" "Key Field Name" "Data Type" "Description" "Foreign Key".

Definition row_field_section : Row :=
  mkRow "nan" "Field Name" "Data Type" "Description" "Foreign Key".

(** A synonym row ahead of the first table name. *)
Definition doc_synonym_first : Document :=
  [ row_synonym "ACCT"; row_table "T" ].

(** A table with a truncated key field name and a normal field whose
    description runs over two rows. *)
Definition doc_account : Document :=
  [ row_table "T";
    row_key_section;
    mkRow "nan" "ACCOUNT_OPEN_DATE_T" "DATE" "Opening" "nan";
    mkRow "1" "IMESTAMP" "nan" "nan" "nan";
    row_field_section;
    mkRow "nan" "status" "CHAR" "Current" "STATUS_REF";
    mkRow "2" "nan" "nan" "value of account." "nan" ].

(** The table ["T"] announced twice, with a key field after the first
    announcement and a normal field after the second. *)
Definition doc_twice : Document :=
  [ row_table "T";
    row_key_section;
    mkRow "nan" "id" "NUMBER" "Identifier" "nan";
    row_table "T";
    row_field_section;
    mkRow "nan" "label" "CHAR" "Display name" "nan" ].

(** A long field name whose row has an empty entry indicator, followed
    by its continuation piece. *)
Definition doc_empty_indicator : Document :=
  [ row_table "T";
    row_key_section;
    mkRow "" "ACCOUNT_OPEN_DATE_T" "DATE" "Opening" "nan";
    mkRow "1" "IMESTAMP" "nan" "nan" "nan" ].

(** A table announced with an empty name, then a long key field name
    and its continuation piece. *)
Definition doc_unnamed : Document :=
  [ row_table "";
    row_key_section;
    mkRow "nan" "ACCOUNT_OPEN_DATE_T" "DATE" "Opening" "nan";
    mkRow "1" "IMESTAMP" "nan" "nan" "nan" ].

(** A long key field name in the last row of a document, its
    continuation piece in the first row of the next one. *)
Definition doc_header_last : Document :=
  [ row_table "T";
    row_key_section;
    mkRow "nan" "ACCOUNT_OPEN_DATE_T" "DATE" "Opening" "nan" ].

Definition doc_piece_first : Document :=
  [ mkRow "1" "IMESTAMP" "nan" "nan" "nan" ].

(** The state of the loop after the first [n] rows of [df]. *)
Definition state_after (df : Document) (n : nat) : State :=
  fst (iterrows df initial_state 0 n).

(** ** Further vocabulary: the loop read as a recursion on the rows *)

(** ['Table Name' in col2], the test of line 225. *)
Definition is_table_name_row (row : Row) : bool :=
  str_in "Table Name" (col2 row).

(** A field header whose name is taken for truncated (lines 294-296). *)
Definition is_long_header (row : Row) : bool :=
  is_field_header row && Nat.leb 19 (String.length (col2 row)).

(** The row loop over the rows still to come; [after] is the row that
    follows the last of them in the document, if any. *)
Fixpoint run_rows (st : State) (rows : list Row) (after : option Row)
  : State * option exn :=
  match rows with
  | [] => (st, None)
  | row :: rest =>
      match process_row st row
              (match rest with [] => after | r :: _ => Some r end) with
      | Continue st' => run_rows st' rest after
      | Raise e st' => (st', Some e)
      end
  end.

(** The column-3 values of the 'Table Name' rows, in order. *)
Definition announced_names (rows : list Row) : list string :=
  map col3 (filter is_table_name_row rows).

(** The two ways a row writes an entry: a header row builds it from
    its columns 3 to 5; a continuation row extends the description of
    the entry [before] that is already there. *)
Definition entry_from (row : Row) (before : option FieldInfo)
  (e : FieldInfo) : Prop :=
  e = mkFieldInfo (col3 row) (col4 row) (norm_foreign_key (col5 row))
  \/ exists e0,
       before = Some e0
       /\ e = mkFieldInfo (f_type e0)
               (f_description e0 ++ " " ++ col4 row)%string
               (f_foreign_key e0).

(** The three ways a row can leave the mapping: untouched; with a
    fresh record under the name the row announces; with the record of
    the current table replaced by one of the same name whose field
    collections are the old ones up to one stored entry. *)
Definition metadata_step (st : State) (row : Row) (st' : State) : Prop :=
  (metadata st' = metadata st /\ table_name st' = table_name st)
  \/ (metadata st'
      = Dict.set (col3 row) (fresh_record (col3 row)) (metadata st)
      /\ table_name st' = Some (col3 row)
      /\ classify row = TableNameRow)
  \/ (exists t rec rec',
         table_name st = Some t /\ table_name st' = Some t
         /\ Dict.get t (metadata st) = Some rec
         /\ metadata st' = Dict.set t rec' (metadata st)
         /\ tm_table_name rec' = tm_table_name rec
         /\ forall sec,
             fields_of sec rec' = fields_of sec rec
             \/ exists name e,
                 fields_of sec rec' = Dict.set name e (fields_of sec rec)
                 /\ entry_from row (Dict.get name (fields_of sec rec)) e).

(** A stored record is well formed when its "Table Name" is the key it
    is stored under and its two field collections have no repeated
    name. *)
Definition record_ok (kv : string * TableMetadata) : Prop :=
  tm_table_name (snd kv) = fst kv
  /\ NoDup (Dict.keys (tm_key_fields (snd kv)))
  /\ NoDup (Dict.keys (tm_normal_fields (snd kv))).

Definition mapping_ok (m : Metadata) : Prop :=
  NoDup (Dict.keys m) /\ Forall record_ok m.

(** ** [custom_clean_text] (lines 396-418) *)

(** [s[n:]] *)
Fixpoint drop (n : nat) (s : string) : string :=
  match n, s with
  | S k, String _ s' => drop k s'
  | _, _ => s
  end.

(** [s.replace(old, new)] for a non-empty [old]: the occurrences of
    [old] are looked for from left to right and do not overlap; [skip]
    counts the characters of a found occurrence still to pass over. *)
Fixpoint replace_from (old new : string) (skip : nat) (s : string) : string :=
  match s with
  | EmptyString => EmptyString
  | String c s' =>
      match skip with
      | S k => replace_from old new k s'
      | 0 =>
          if String.prefix old s
          then (new ++ replace_from old new (String.length old - 1) s')%string
          else String c (replace_from old new 0 s')
      end
  end.

(** [s.replace('', new)]: [new] before every character and at the end. *)
Fixpoint interleave (new s : string) : string :=
  match s with
  | EmptyString => new
  | String c s' => (new ++ String c (interleave new s'))%string
  end.

Definition replace (old new s : string) : string :=
  match old with
  | EmptyString => interleave new s
  | _ => replace_from old new 0 s
  end.

(** The three replacements of lines 410-412, in order. *)
Definition fix_typos (text : string) : string :=
  replace "DAITE" "DATE"
    (replace "Daite" "Date"
       (replace "start_daite" "start_date" text)).

(** [text] is [None] or a [str]; [not text] holds for [None] and for
    the empty string. *)
Definition custom_clean_text (text : option string) : option string :=
  match text with
  | None => None
  | Some s =>
      if negb (truthy s) || String.eqb s "nan" then Some s
      else Some (fix_typos s)
  end.

(** The three misspellings the function looks for. *)
Definition has_typo (s : string) : bool :=
  str_in "start_daite" s || str_in "Daite" s || str_in "DAITE" s.

(** [c in s] for a character. *)
Fixpoint char_in (c : ascii) (s : string) : bool :=
  match s with
  | EmptyString => false
  | String b s' => Ascii.eqb c b || char_in c s'
  end.

(** [p] and [u] differ at a position both have. *)
Fixpoint clash (p u : string) : bool :=
  match p, u with
  | String a p', String b u' => if Ascii.eqb a b then clash p' u' else true
  | _, _ => false
  end.

(** At every position of [s] where [old] does not start, [p] does not
    start either. *)
Fixpoint safe (old p s : string) : bool :=
  (String.prefix old s || negb (String.prefix p s))
  && match s with
     | EmptyString => true
     | String _ s' => safe old p s'
     end.

(** A sufficient condition for [replace old new] not to bring about an
    occurrence of [p]: [old] and [new] start with the same character
    [f], which occurs nowhere else in [p]; the first character of [p]
    does not occur in the rest of [new]; and [p] cannot start where
    [new] starts. *)
Definition no_new_occurrence (old new p : string) : bool :=
  match old, new, p with
  | String f _, String f' n, String a w =>
      Ascii.eqb f f' && negb (char_in f w) && negb (char_in a n)
      && (negb (Ascii.eqb a f) || clash p new)
  | _, _, _ => false
  end.

(** ** The separator-line filter (lines 186-198) *)

(** The characters [str.strip] removes and [\s] matches, among the
    first 256 code points: tab to carriage return, the four separators
    28 to 31, the space, NEL (133) and the no-break space (160). *)
Definition is_space (c : ascii) : bool :=
  let n := nat_of_ascii c in
  (Nat.leb 9 n && Nat.leb n 13) || (Nat.leb 28 n && Nat.leb n 32)
  || Nat.eqb n 133 || Nat.eqb n 160.

(** [s.lstrip()] *)
Fixpoint lstrip (s : string) : string :=
  match s with
  | EmptyString => EmptyString
  | String c s' => if is_space c then lstrip s' else s
  end.

(** [s.rstrip()] *)
Fixpoint rstrip (s : string) : string :=
  match s with
  | EmptyString => EmptyString
  | String c s' =>
      match rstrip s' with
      | EmptyString => if is_space c then EmptyString else String c EmptyString
      | r => String c r
      end
  end.

(** [s.strip()] *)
Definition strip (s : string) : string := rstrip (lstrip s).

(** Regular expressions over characters; a character class is its
    membership test. *)
Inductive regex :=
| Void
| Eps
| Class (cls : ascii -> bool)
| Cat (r1 r2 : regex)
| Alt (r1 r2 : regex)
| Star (r : regex).

Definition Chr (c : ascii) : regex := Class (Ascii.eqb c).
Definition Opt (r : regex) : regex := Alt Eps r.      (* r? *)
Definition Plus (r : regex) : regex := Cat r (Star r). (* r+ *)

(** The strings a regular expression matches from end to end. *)
Inductive in_lang : regex -> string -> Prop :=
| in_eps : in_lang Eps EmptyString
| in_class cls c : cls c = true -> in_lang (Class cls) (String c EmptyString)
| in_cat r1 r2 s1 s2 :
    in_lang r1 s1 -> in_lang r2 s2 -> in_lang (Cat r1 r2) (s1 ++ s2)%string
| in_alt_l r1 r2 s : in_lang r1 s -> in_lang (Alt r1 r2) s
| in_alt_r r1 r2 s : in_lang r2 s -> in_lang (Alt r1 r2) s
| in_star_nil r : in_lang (Star r) EmptyString
| in_star_cons r s1 s2 :
    in_lang r s1 -> in_lang (Star r) s2 -> in_lang (Star r) (s1 ++ s2)%string.

(** Matching by derivatives. *)
Fixpoint nullable (r : regex) : bool :=
  match r with
  | Void => false
  | Eps => true
  | Class _ => false
  | Cat r1 r2 => nullable r1 && nullable r2
  | Alt r1 r2 => nullable r1 || nullable r2
  | Star _ => true
  end.

Fixpoint deriv (c : ascii) (r : regex) : regex :=
  match r with
  | Void => Void
  | Eps => Void
  | Class cls => if cls c then Eps else Void
  | Cat r1 r2 =>
      if nullable r1 then Alt (Cat (deriv c r1) r2) (deriv c r2)
      else Cat (deriv c r1) r2
  | Alt r1 r2 => Alt (deriv c r1) (deriv c r2)
  | Star r1 => Cat (deriv c r1) (Star r1)
  end.

(** [re.match('^' + r + '$', s)] on a string [s] that does not end with
    a newline: is the whole of [s] matched by [r]? *)
Fixpoint matches (r : regex) (s : string) : bool :=
  match s with
  | EmptyString => nullable r
  | String c s' => matches (deriv c r) s'
  end.

Definition dquote : ascii := ascii_of_nat 34.
Definition ws : regex := Class is_space.                        (* \s *)
Definition not_pipe : regex := Class (fun c => negb (Ascii.eqb c "|")). (* [^\|] *)

(** Pattern 1: [^\s*\|[\s\-\:]+\|\s*$] *)
Definition pattern1 : regex :=
  Cat (Star ws)
    (Cat (Chr "|")
       (Cat (Plus (Class (fun c => is_space c || Ascii.eqb c "-"
                                   || Ascii.eqb c ":")))
          (Cat (Chr "|") (Star ws)))).

(** Pattern 2, with Q for the double quote character:
    [^\s*Q?:[^\|]*Q?\s*:\s*Q?:[^\|]*Q?\s*,?\s*$] *)
Definition pattern2 : regex :=
  Cat (Star ws)
    (Cat (Opt (Chr dquote))
       (Cat (Chr ":")
          (Cat (Star not_pipe)
             (Cat (Opt (Chr dquote))
                (Cat (Star ws)
                   (Cat (Chr ":")
                      (Cat (Star ws)
                         (Cat (Opt (Chr dquote))
                            (Cat (Chr ":")
                               (Cat (Star not_pipe)
                                  (Cat (Opt (Chr dquote))
                                     (Cat (Star ws)
                                        (Cat (Opt (Chr ","))
                                           (Star ws)))))))))))))).

(** The characters of pattern 3, [[\s\|\Q\:\-\,]] with Q for the
    double quote: white space, pipe, double quote, colon, dash, comma. *)
Definition is_separator_char (c : ascii) : bool :=
  is_space c || Ascii.eqb c "|" || Ascii.eqb c dquote || Ascii.eqb c ":"
  || Ascii.eqb c "-" || Ascii.eqb c ",".

(** Pattern 3: the class of the characters above, starred. *)
Definition pattern3 : regex := Star (Class is_separator_char).

(** [not (pattern1 or pattern2 or pattern3)] on the stripped line. *)
Definition keep_line (line : string) : bool :=
  let line_stripped := strip line in
  negb (matches pattern1 line_stripped
        || matches pattern2 line_stripped
        || matches pattern3 line_stripped).

Definition filtered_lines (lines : list string) : list string :=
  filter keep_line lines.

(** Every character class of [r] lies within [S]. *)
Fixpoint within (S : ascii -> bool) (r : regex) : Prop :=
  match r with
  | Void | Eps => True
  | Class cls => forall c, cls c = true -> S c = true
  | Cat r1 r2 | Alt r1 r2 => within S r1 /\ within S r2
  | Star r1 => within S r1
  end.

(** [all(S(c) for c in s)] and [any(S(c) for c in s)] *)
Fixpoint all_chars (S : ascii -> bool) (s : string) : bool :=
  match s with
  | EmptyString => true
  | String c s' => S c && all_chars S s'
  end.

Fixpoint some_char (S : ascii -> bool) (s : string) : bool :=
  match s with
  | EmptyString => false
  | String c s' => S c || some_char S s'
  end.

(** * Facts *)

Unset Implicit Arguments.

(** Case split on the condition of the [if] in the goal. *)
Ltac case_if :=
  match goal with
  | |- context [if ?c then _ else _] => destruct c
  end.

(** ** Ordered dictionaries *)

Module DictFacts.
Section Facts.
Variable V : Type.
Implicit Types (d : Dict.t V) (k : string) (v : V).

Lemma get_set_same k v d : Dict.get k (Dict.set k v d) = Some v.
Proof.
  induction d as [|[k' v'] d IH]; simpl.
  - now rewrite String.eqb_refl.
  - destruct (String.eqb k' k) eqn:E; simpl.
    + now rewrite String.eqb_refl.
    + now rewrite E.
Qed.

Lemma get_set_other k k' v d :
  k <> k' -> Dict.get k' (Dict.set k v d) = Dict.get k' d.
Proof.
  intros Hne. induction d as [|[k0 v0] d IH]; simpl.
  - apply String.eqb_neq in Hne. now rewrite Hne.
  - destruct (String.eqb k0 k) eqn:E; simpl.
    + apply String.eqb_eq in E. subst k0.
      apply String.eqb_neq in Hne. now rewrite Hne.
    + destruct (String.eqb k0 k'); auto.
Qed.

Lemma keys_set_present k v v0 d :
  Dict.get k d = Some v0 -> Dict.keys (Dict.set k v d) = Dict.keys d.
Proof.
  induction d as [|[k' v'] d IH]; simpl; [discriminate|].
  destruct (String.eqb k' k) eqn:E; simpl; intros H.
  - apply String.eqb_eq in E. now subst.
  - f_equal. now apply IH.
Qed.

Lemma keys_set_absent k v d :
  Dict.get k d = None -> Dict.keys (Dict.set k v d) = Dict.keys d ++ [k].
Proof.
  induction d as [|[k' v'] d IH]; simpl; [reflexivity|].
  destruct (String.eqb k' k) eqn:E; simpl; intros H; [discriminate|].
  f_equal. now apply IH.
Qed.

Lemma get_in_keys k d :
  Dict.get k d <> None <-> existsb (String.eqb k) (Dict.keys d) = true.
Proof.
  induction d as [|[k' v'] d IH]; simpl.
  - split; [congruence | discriminate].
  - rewrite (String.eqb_sym k k').
    destruct (String.eqb k' k); simpl; [|exact IH].
    split; [reflexivity | discriminate].
Qed.

(** Entry by entry, [set] on a present key is [map] on that entry. *)
Lemma set_present_map (B : Type) (f : string * V -> B) k v v0 d :
  Dict.get k d = Some v0 -> f (k, v) = f (k, v0) ->
  (forall k1 k2 w, String.eqb k1 k2 = true -> f (k1, w) = f (k2, w)) ->
  map f (Dict.set k v d) = map f d.
Proof.
  intros Hget Hf Hk. induction d as [|[k' v'] d IH]; simpl in *.
  - discriminate.
  - destruct (String.eqb k' k) eqn:E; simpl.
    + inversion Hget; subst v'. f_equal.
      rewrite Hf. symmetry. now apply Hk.
    + f_equal. now apply IH.
Qed.
End Facts.
End DictFacts.

(** ** Strings *)

Lemma truthy_true_iff (s : string) : truthy s = true <-> s <> "".
Proof.
  unfold truthy. rewrite negb_true_iff. apply String.eqb_neq.
Qed.

Lemma eqb_false_of_neq (s u : string) : s <> u -> String.eqb s u = false.
Proof. apply String.eqb_neq. Qed.

(** A blank cell, empty or ["nan"], contains none of the markers. *)
Lemma classify_blank (row : Row) :
  col2 row = "" \/ col2 row = "nan" -> classify row = DataRow.
Proof.
  unfold classify. intros [-> | ->]; reflexivity.
Qed.

Lemma norm_foreign_key_spec (fk : string) :
  (fk = "nan" -> norm_foreign_key fk = "")
  /\ (fk <> "nan" -> norm_foreign_key fk = fk).
Proof.
  unfold norm_foreign_key. split.
  - now intros ->.
  - intros H. now rewrite (eqb_false_of_neq _ _ H).
Qed.

Lemma is_field_header_iff (row : Row) :
  is_field_header row = true
  <-> col1 row = "nan" /\ col2 row <> "" /\ col2 row <> "nan".
Proof.
  unfold is_field_header.
  rewrite !andb_true_iff, truthy_true_iff, negb_true_iff.
  rewrite String.eqb_eq, String.eqb_neq. tauto.
Qed.

Lemma has_continuation_iff (nr : Row) :
  has_continuation nr = true <-> col1 nr <> "nan" /\ col2 nr <> "nan".
Proof.
  unfold has_continuation.
  rewrite andb_true_iff, !negb_true_iff, !String.eqb_neq. tauto.
Qed.

(** ** Single rows *)

Lemma process_data_row (st : State) (row : Row) (next_row : option Row)
  (sec : section) :
  classify row = DataRow ->
  truthy_opt (table_name st) = true ->
  section_mode st = Some sec ->
  process_row st row next_row = process_field_row sec st row next_row.
Proof.
  intros Hc Ht Hs. unfold process_row. now rewrite Hc, Ht, Hs.
Qed.

(** A data row met while no table name is set is skipped. *)
Lemma data_row_without_table (st : State) (row : Row) (next_row : option Row) :
  classify row = DataRow ->
  truthy_opt (table_name st) = false ->
  process_row st row next_row = Continue st.
Proof.
  intros Hc Ht. unfold process_row. now rewrite Hc, Ht.
Qed.

Lemma append_description_blank (sec : section) (st : State) (row : Row) :
  col4 row = "" \/ col4 row = "nan" ->
  append_description sec st row = Continue st.
Proof.
  intros H4. unfold append_description.
  destruct (current_Fullname sec st) as [name|]; [|reflexivity].
  destruct H4 as [-> | ->]; simpl;
    now rewrite ?andb_false_r.
Qed.

(** C1, at the failing input: a 'Table Synonym' row met before any
    'Table Name' row is not dropped; [metadata[table_name]] raises
    [KeyError] with [table_name = None], the rest of the document is
    abandoned, and the 'Table Name' row that follows it is never
    processed, while the same row alone in a document creates the
    record. *)
Theorem C1_synonym_before_table_name_raises :
  process_row initial_state (row_synonym "ACCT") (Some (row_table "T"))
  = Raise (KeyError_table None) initial_state
  /\ iterrows doc_synonym_first initial_state 0 2
     = (initial_state, Some (KeyError_table None))
  /\ metadata (final_state [doc_synonym_first]) = Dict.empty
  /\ metadata (final_state [[row_table "T"]]) = [("T", fresh_record "T")].
Proof.
  repeat split; reflexivity.
Qed.

(** C7: a row whose columns 2, 3 and 4 are all blank (empty or ["nan"])
    changes nothing: the loop goes on with the very same state, hence
    the same table, section flags, current field names and mapping. *)
Theorem C7_blank_row_is_noop (st : State) (row : Row) (next_row : option Row) :
  col2 row = "" \/ col2 row = "nan" ->
  col3 row = "" \/ col3 row = "nan" ->
  col4 row = "" \/ col4 row = "nan" ->
  process_row st row next_row = Continue st.
Proof.
  intros H2 _ H4. unfold process_row.
  rewrite (classify_blank row H2).
  destruct (negb (truthy_opt (table_name st))); [reflexivity|].
  destruct (section_mode st) as [sec|]; [|reflexivity].
  unfold process_field_row.
  assert (Hh : is_field_header row = false).
  { unfold is_field_header, truthy.
    destruct H2 as [-> | ->]; simpl; now rewrite ?andb_false_r. }
  rewrite Hh. now apply append_description_blank.
Qed.

Lemma C7_blank_row_is_noop_witness :
  process_row (state_after doc_account 6)
    (mkRow "nan" "nan" "" "nan" "nan") None
  = Continue (state_after doc_account 6).
Proof.
  apply C7_blank_row_is_noop; simpl; auto.
Defined.

(** ** The invariant of the row loop *)

Lemma dedup_snoc (l : list string) (x : string) :
  dedup (l ++ [x])
  = if existsb (String.eqb x) (dedup l) then dedup l else dedup l ++ [x].
Proof.
  unfold dedup. now rewrite fold_left_app.
Qed.

Lemma lookup_table_inr (st : State) (t : string) (rec : TableMetadata) :
  lookup_table st = inr (t, rec)
  <-> table_name st = Some t /\ Dict.get t (metadata st) = Some rec.
Proof.
  unfold lookup_table.
  destruct (table_name st) as [t0|]; [|split; [discriminate | intros [H _]; discriminate]].
  destruct (Dict.get t0 (metadata st)) as [r0|] eqn:E.
  - split.
    + intros H. inversion H; subst. auto.
    + intros [H1 H2]. inversion H1; subst. rewrite E in H2.
      inversion H2; now subst.
  - split; [discriminate|].
    intros [H1 H2]. inversion H1; subst. congruence.
Qed.

Lemma wf_lookup_table (st : State) :
  wf st -> truthy_opt (table_name st) = true ->
  exists t rec, lookup_table st = inr (t, rec) /\ truthy t = true.
Proof.
  intros Hwf Ht. destruct (table_name st) as [t|] eqn:E; [|discriminate].
  destruct (wf_table Hwf E) as [rec Hrec].
  exists t, rec. split; [|exact Ht].
  apply lookup_table_inr. auto.
Qed.

Lemma section_mode_flag (st : State) (sec : section) :
  section_mode st = Some sec -> section_flag sec st = true.
Proof.
  unfold section_mode.
  destruct (in_key_field_section st) eqn:Ek.
  - intros H. inversion H. exact Ek.
  - destruct (in_field_section st) eqn:En; [|discriminate].
    intros H. inversion H. exact En.
Qed.

(** With at most one flag set, the open section is the only one whose
    flag is set. *)
Lemma section_flag_unique (st : State) (sec sec' : section) :
  in_key_field_section st && in_field_section st = false ->
  section_mode st = Some sec -> section_flag sec' st = true -> sec' = sec.
Proof.
  unfold section_mode.
  destruct st as [ik inf tn m res ck cn]; simpl.
  destruct ik, inf, sec, sec'; simpl; congruence.
Qed.

Lemma wf_initial : wf initial_state.
Proof.
  split; simpl; try reflexivity; discriminate.
Qed.

Lemma wf_table_name_row (st : State) (name : string) :
  wf st ->
  wf (mkState false false (Some name)
        (Dict.set name (fresh_record name) (metadata st))
        (results st ++ [name])
        (current_Key_Field_Fullname st) (current_Normal_Field_Fullname st)).
Proof.
  intros Hwf. split; simpl.
  - intros t Ht. inversion Ht; subst t.
    eexists. apply DictFacts.get_set_same.
  - reflexivity.
  - intros [] ? ? ? H; discriminate.
  - rewrite dedup_snoc, <- (wf_keys Hwf).
    destruct (Dict.get name (metadata st)) as [r|] eqn:E.
    + rewrite (DictFacts.keys_set_present _ _ _ _ _ E).
      assert (H : Dict.get name (metadata st) <> None) by congruence.
      apply DictFacts.get_in_keys in H. now rewrite H.
    + rewrite (DictFacts.keys_set_absent _ _ _ _ E).
      destruct (existsb (String.eqb name) (Dict.keys (metadata st))) eqn:X;
        [|reflexivity].
      apply DictFacts.get_in_keys in X. congruence.
Qed.

(** Replacing the current record by one that keeps the entries of the
    open section keeps the invariant. *)
Lemma wf_replace_record (st : State) (t : string) (rec rec' : TableMetadata) :
  wf st -> table_name st = Some t -> Dict.get t (metadata st) = Some rec ->
  (forall sec name fi,
      section_flag sec st = true ->
      Dict.get name (fields_of sec rec) = Some fi ->
      exists fi', Dict.get name (fields_of sec rec') = Some fi') ->
  wf (with_metadata st (Dict.set t rec' (metadata st))).
Proof.
  intros Hwf Ht Hrec Hkeep. split; simpl.
  - intros t0 Ht0. rewrite Ht in Ht0. inversion Ht0; subst t0.
    eexists. apply DictFacts.get_set_same.
  - apply (wf_flags Hwf).
  - intros sec name t0 rec0 Hflag Hcur Ht0 Hget.
    rewrite Ht in Ht0. inversion Ht0; subst t0.
    rewrite DictFacts.get_set_same in Hget. inversion Hget; subst rec0.
    assert (Hc : current_Fullname sec st = Some name)
      by (destruct sec; exact Hcur).
    assert (Hf : section_flag sec st = true)
      by (destruct sec; exact Hflag).
    destruct (wf_current Hwf sec Hf Hc Ht Hrec) as [fi Hfi].
    exact (Hkeep sec name fi Hf Hfi).
  - rewrite (DictFacts.keys_set_present _ _ _ _ _ Hrec). apply (wf_keys Hwf).
Qed.

Lemma wf_update_record (st : State) (upd : TableMetadata -> TableMetadata) :
  wf st ->
  (forall sec rec, fields_of sec (upd rec) = fields_of sec rec) ->
  match update_record st upd with
  | Continue st' | Raise _ st' => wf st'
  end.
Proof.
  intros Hwf Hupd. unfold update_record.
  destruct (lookup_table st) as [e|[t rec]] eqn:E; [exact Hwf|].
  apply lookup_table_inr in E. destruct E as [Ht Hrec].
  apply (wf_replace_record st t rec _ Hwf Ht Hrec).
  intros sec name fi _ H. rewrite Hupd. eauto.
Qed.

Lemma fields_of_with_fields (sec : section) (rec : TableMetadata) (fs : Fields) :
  fields_of sec (with_fields sec rec fs) = fs.
Proof. now destruct sec. Qed.

Lemma fields_of_with_fields_other (sec sec' : section) (rec : TableMetadata)
  (fs : Fields) :
  sec' <> sec -> fields_of sec' (with_fields sec rec fs) = fields_of sec' rec.
Proof. destruct sec, sec'; simpl; congruence. Qed.

Lemma create_field_eq (sec : section) (st : State) (name : string) (row : Row)
  (t : string) (rec : TableMetadata) :
  table_name st = Some t -> Dict.get t (metadata st) = Some rec ->
  create_field sec st name row
  = Continue
      (with_metadata (with_current_Fullname sec st (Some name))
         (Dict.set t
            (with_fields sec rec
               (Dict.set name
                  (mkFieldInfo (col3 row) (col4 row)
                     (norm_foreign_key (col5 row)))
                  (fields_of sec rec)))
            (metadata st))).
Proof.
  intros Ht Hrec. unfold create_field, update_record, lookup_table.
  destruct sec; simpl; now rewrite Ht, Hrec.
Qed.

Lemma wf_create_field (st : State) (sec : section) (t : string)
  (rec : TableMetadata) (name : string) (entry : FieldInfo) :
  wf st -> section_mode st = Some sec ->
  table_name st = Some t -> Dict.get t (metadata st) = Some rec ->
  wf (with_metadata (with_current_Fullname sec st (Some name))
        (Dict.set t
           (with_fields sec rec (Dict.set name entry (fields_of sec rec)))
           (metadata st))).
Proof.
  intros Hwf Hmode Ht Hrec.
  assert (Htn : forall m, table_name
                   (with_metadata (with_current_Fullname sec st (Some name)) m)
                 = table_name st) by (now destruct sec).
  split.
  - intros t0 Ht0. rewrite Htn, Ht in Ht0. inversion Ht0; subst t0.
    eexists. simpl. apply DictFacts.get_set_same.
  - destruct sec; apply (wf_flags Hwf).
  - intros sec0 name0 t0 rec0 Hflag Hcur Ht0 Hget.
    rewrite Htn, Ht in Ht0. inversion Ht0; subst t0.
    simpl in Hget. rewrite DictFacts.get_set_same in Hget.
    inversion Hget; subst rec0.
    assert (sec0 = sec) as ->.
    { apply (section_flag_unique st); [apply (wf_flags Hwf) | exact Hmode |].
      destruct sec, sec0; exact Hflag. }
    assert (name0 = name) as ->
      by (destruct sec; simpl in Hcur; congruence).
    rewrite fields_of_with_fields. eexists. apply DictFacts.get_set_same.
  - simpl. rewrite (DictFacts.keys_set_present _ _ _ _ _ Hrec).
    destruct sec; apply (wf_keys Hwf).
Qed.

Lemma wf_process_field_row (sec : section) (st : State) (row : Row)
  (next_row : option Row) :
  wf st -> truthy_opt (table_name st) = true -> section_mode st = Some sec ->
  match process_field_row sec st row next_row with
  | Continue st' | Raise _ st' => wf st'
  end.
Proof.
  intros Hwf Htruthy Hmode.
  destruct (wf_lookup_table st Hwf Htruthy) as (t & rec & Hlook & _).
  pose proof Hlook as Hl. apply lookup_table_inr in Hl. destruct Hl as [Ht Hrec].
  assert (Hcreate : forall name,
             match create_field sec st name row with
             | Continue st' | Raise _ st' => wf st'
             end).
  { intros name. rewrite (create_field_eq sec st name row t rec Ht Hrec).
    now apply wf_create_field. }
  unfold process_field_row.
  destruct (is_field_header row).
  - destruct (Nat.leb 19 (String.length (col2 row))); [|apply Hcreate].
    destruct next_row as [nr|]; [|exact Hwf].
    destruct (has_continuation nr); [apply Hcreate | exact Hwf].
  - unfold append_description.
    destruct (current_Fullname sec st) as [name|] eqn:Hcur; [|exact Hwf].
    case_if; [|exact Hwf].
    rewrite Hlook.
    destruct (Dict.get name (fields_of sec rec)) as [fi|] eqn:Hfi; [|exact Hwf].
    apply (wf_replace_record st t rec _ Hwf Ht Hrec).
    intros sec0 name0 fi0 Hflag Hget.
    assert (sec0 = sec) as ->
      by (apply (section_flag_unique st); [apply (wf_flags Hwf) | |]; assumption).
    rewrite fields_of_with_fields.
    destruct (String.eqb name name0) eqn:En.
    + apply String.eqb_eq in En. subst name0.
      eexists. apply DictFacts.get_set_same.
    + apply String.eqb_neq in En.
      rewrite (DictFacts.get_set_other _ _ _ _ _ En). eauto.
Qed.

(** One iteration keeps the invariant, whether it ends or raises. *)
Lemma wf_process_row (st : State) (row : Row) (next_row : option Row) :
  wf st ->
  match process_row st row next_row with
  | Continue st' | Raise _ st' => wf st'
  end.
Proof.
  intros Hwf. unfold process_row.
  destruct (classify row).
  - now apply wf_table_name_row.
  - apply wf_update_record; [exact Hwf | now intros []].
  - apply wf_update_record; [exact Hwf | now intros []].
  - apply wf_update_record; [exact Hwf | now intros []].
  - split; simpl; try apply Hwf.
    + reflexivity.
    + intros [] name t rec; simpl; discriminate.
  - split; simpl; try apply Hwf.
    + reflexivity.
    + intros [] name t rec; simpl; discriminate.
  - destruct (truthy_opt (table_name st)) eqn:Ht; simpl; [|exact Hwf].
    destruct (section_mode st) as [sec|] eqn:Hmode; [|exact Hwf].
    now apply wf_process_field_row.
Qed.

Theorem reachable_wf (st : State) : reachable st -> wf st.
Proof.
  induction 1 as [|st row next st' _ IH Hstep|st row next e st' _ IH Hstep].
  - exact wf_initial.
  - pose proof (wf_process_row st row next IH) as H. now rewrite Hstep in H.
  - pose proof (wf_process_row st row next IH) as H. now rewrite Hstep in H.
Qed.

(** ** The loops stay within the reachable states *)

Lemma reachable_iterrows (df : Document) (n : nat) :
  forall st idx, reachable st -> reachable (fst (iterrows df st idx n)).
Proof.
  induction n as [|n IH]; intros st idx Hst; simpl; [exact Hst|].
  destruct (nth_error df idx) as [row|]; [|exact Hst].
  destruct (process_row st row (nth_error df (idx + 1))) as [st'|e st'] eqn:E.
  - apply IH. eapply reach_continue; eauto.
  - simpl. eapply reach_raise; eauto.
Qed.

Lemma reachable_process_files (files : list Document) :
  forall st, reachable st -> reachable (process_files st files).
Proof.
  induction files as [|df files IH]; intros st Hst; simpl; [exact Hst|].
  apply IH. now apply reachable_iterrows.
Qed.

Lemma reachable_state_after (df : Document) (n : nat) :
  reachable (state_after df n).
Proof. apply reachable_iterrows. constructor. Qed.

Lemma reachable_final_state (files : list Document) :
  reachable (final_state files).
Proof. apply reachable_process_files. constructor. Qed.

(** ** Field header rows *)

(** In a reachable state with a table name that is set and not empty,
    the record of the current table is there. *)
Lemma reachable_record (st : State) (t : string) :
  reachable st -> table_name st = Some t ->
  exists rec, Dict.get t (metadata st) = Some rec.
Proof.
  intros Hr Ht. exact (wf_table (reachable_wf st Hr) Ht).
Qed.

Lemma truthy_opt_some (st : State) (t : string) :
  table_name st = Some t -> t <> "" -> truthy_opt (table_name st) = true.
Proof.
  intros -> Hne. simpl. now apply truthy_true_iff.
Qed.

(** The name under which a header row stores its entry: the field name
    itself when shorter than 19 characters, else the field name followed
    by the next row's piece, provided the next row is a continuation. *)
Lemma header_row_creates (st : State) (sec : section) (row : Row)
  (next_row : option Row) (t name : string) :
  reachable st ->
  table_name st = Some t -> t <> "" ->
  section_mode st = Some sec ->
  classify row = DataRow ->
  is_field_header row = true ->
  (String.length (col2 row) < 19 /\ name = col2 row)
  \/ (19 <= String.length (col2 row)
      /\ exists nr, next_row = Some nr /\ has_continuation nr = true
                    /\ name = (col2 row ++ col2 nr)%string) ->
  exists rec,
    Dict.get t (metadata st) = Some rec
    /\ process_row st row next_row
       = Continue
           (with_metadata (with_current_Fullname sec st (Some name))
              (Dict.set t
                 (with_fields sec rec
                    (Dict.set name
                       (mkFieldInfo (col3 row) (col4 row)
                          (norm_foreign_key (col5 row)))
                       (fields_of sec rec)))
                 (metadata st))).
Proof.
  intros Hr Ht Hne Hmode Hc Hh Hname.
  destruct (reachable_record st t Hr Ht) as [rec Hrec].
  exists rec. split; [exact Hrec|].
  rewrite (process_data_row st row next_row sec Hc
             (truthy_opt_some st t Ht Hne) Hmode).
  unfold process_field_row. rewrite Hh.
  destruct Hname as [[Hlen ->] | (Hlen & nr & -> & Hcont & ->)].
  - apply Nat.leb_gt in Hlen. rewrite Hlen.
    now apply create_field_eq.
  - apply Nat.leb_le in Hlen. rewrite Hlen, Hcont.
    now apply create_field_eq.
Qed.

(** What can be read back from the state a created entry leaves. *)
Lemma created_entry_lookup (st : State) (sec : section) (t name : string)
  (rec : TableMetadata) (entry : FieldInfo) :
  let st' :=
    with_metadata (with_current_Fullname sec st (Some name))
      (Dict.set t
         (with_fields sec rec (Dict.set name entry (fields_of sec rec)))
         (metadata st)) in
  current_Fullname sec st' = Some name
  /\ exists rec', Dict.get t (metadata st') = Some rec'
                  /\ Dict.get name (fields_of sec rec') = Some entry.
Proof.
  simpl. split; [now destruct sec|].
  eexists. split; [apply DictFacts.get_set_same|].
  rewrite fields_of_with_fields. apply DictFacts.get_set_same.
Qed.

(** ** One more iteration of the row loop *)

(** When the loop has gone through the first [n] rows from index [i]
    without raising, one more iteration runs the row at index [i + n]
    with the row at index [i + n + 1] of the same document, if any, as
    its successor. *)
Lemma iterrows_one_more (df : Document) (n : nat) :
  forall i st0 st row,
    iterrows df st0 i n = (st, None) ->
    nth_error df (i + n) = Some row ->
    iterrows df st0 i (S n)
    = match process_row st row (nth_error df (i + n + 1)) with
      | Continue st' => (st', None)
      | Raise e st' => (st', Some e)
      end.
Proof.
  induction n as [|n IH]; intros i st0 st row Hrun Hrow.
  - cbn [iterrows] in *. inversion Hrun; subst st0.
    rewrite Nat.add_0_r in *. rewrite Hrow.
    now destruct (process_row st row (nth_error df (i + 1))).
  - cbn [iterrows] in Hrun. cbn [iterrows].
    destruct (nth_error df i) as [r|] eqn:Hr.
    + destruct (process_row st0 r (nth_error df (i + 1))) as [st1|e st1];
        [|discriminate].
      replace (i + S n) with (i + 1 + n) in * by lia.
      exact (IH (i + 1) st1 st row Hrun Hrow).
    + exfalso. apply nth_error_None in Hr.
      assert (H : nth_error df (i + S n) = None)
        by (apply nth_error_None; lia).
      congruence.
Qed.

Lemma created_entry_stored (st : State) (sec : section) (t name : string)
  (rec : TableMetadata) (row : Row) :
  entry_stored sec t name row
    (with_metadata (with_current_Fullname sec st (Some name))
       (Dict.set t
          (with_fields sec rec
             (Dict.set name
                (mkFieldInfo (col3 row) (col4 row)
                   (norm_foreign_key (col5 row)))
                (fields_of sec rec)))
          (metadata st))).
Proof.
  exact (created_entry_lookup st sec t name rec
           (mkFieldInfo (col3 row) (col4 row) (norm_foreign_key (col5 row)))).
Qed.

(** C3 as stated fails.  In key field mode, a data row with a field
    name of 19 characters whose column 1 is empty, followed by a row
    with both columns filled, is handled as a continuation row: the
    loop goes on and no entry is created under the reassembled name.
    Nor is one created when the table was announced with an empty
    name, or when the piece is the first row of the next document. *)
Lemma C3_counterexample :
  ~ (forall (st0 st : State) (df : Document) (idx : nat) (sec : section)
            (row nr : Row),
        reachable st0 ->
        iterrows df st0 0 idx = (st, None) ->
        nth_error df idx = Some row ->
        nth_error df (idx + 1) = Some nr ->
        section_mode st = Some sec ->
        classify row = DataRow ->
        19 <= String.length (col2 row) ->
        col1 nr <> "" -> col1 nr <> "nan" ->
        col2 nr <> "" -> col2 nr <> "nan" ->
        exists st' t rec' fi,
          iterrows df st0 0 (S idx) = (st', None)
          /\ table_name st' = Some t
          /\ Dict.get t (metadata st') = Some rec'
          /\ Dict.get (col2 row ++ col2 nr)%string (fields_of sec rec')
             = Some fi)
  /\ (section_mode (state_after doc_unnamed 2) = Some KeyFields
      /\ iterrows doc_unnamed initial_state 0 4
         = (state_after doc_unnamed 2, None)
      /\ metadata (state_after doc_unnamed 2) = [("", fresh_record "")])
  /\ (section_mode (final_state [doc_header_last]) = Some KeyFields
      /\ metadata (final_state [doc_header_last; doc_piece_first])
         = [("T", fresh_record "T")]).
Proof.
  split; [|split; repeat split].
  intros H.
  destruct (H initial_state (state_after doc_empty_indicator 2)
              doc_empty_indicator 2 KeyFields
              (mkRow "" "ACCOUNT_OPEN_DATE_T" "DATE" "Opening" "nan")
              (mkRow "1" "IMESTAMP" "nan" "nan" "nan"))
    as (st' & t & rec' & fi & Hrun & Ht & Hrec & Hfi);
    try reflexivity; try discriminate.
  - constructor.
  - vm_compute in Hrun. inversion Hrun; subst st'.
    simpl in Ht. inversion Ht; subst t.
    vm_compute in Hrec. inversion Hrec; subst rec'.
    discriminate Hfi.
Qed.

(** C3, as amended: when the row loop, with a non-empty table name
    current and a key or normal field section open, comes to a field
    header row (a data row whose column 1 is ["nan"]) whose field name
    has 19 characters or more, and the next row of the same document
    has columns 1 and 2 neither empty nor ["nan"], the iteration stores
    the entry named by the two column-2 values put together without
    separator: it holds the header row's column 3 as type, column 4 as
    description and column 5, with ["nan"] turned into the empty
    string, as foreign key. *)
Theorem C3_truncated_field_name_reassembled (st0 st : State) (df : Document)
  (idx : nat) (sec : section) (row nr : Row) (t : string) :
  reachable st0 ->
  iterrows df st0 0 idx = (st, None) ->
  nth_error df idx = Some row ->
  nth_error df (idx + 1) = Some nr ->
  table_name st = Some t -> t <> "" ->
  section_mode st = Some sec ->
  classify row = DataRow ->
  col1 row = "nan" ->
  19 <= String.length (col2 row) ->
  col1 nr <> "" -> col1 nr <> "nan" ->
  col2 nr <> "" -> col2 nr <> "nan" ->
  exists st' rec' fi,
    iterrows df st0 0 (S idx) = (st', None)
    /\ current_Fullname sec st' = Some (col2 row ++ col2 nr)%string
    /\ Dict.get t (metadata st') = Some rec'
    /\ Dict.get (col2 row ++ col2 nr)%string (fields_of sec rec') = Some fi
    /\ f_type fi = col3 row
    /\ f_description fi = col4 row
    /\ (col5 row = "nan" -> f_foreign_key fi = "")
    /\ (col5 row <> "nan" -> f_foreign_key fi = col5 row).
Proof.
  intros Hr0 Hrun Hrow Hnext Ht Hne Hmode Hc H1 Hlen _ Hn1 _ Hn2.
  assert (Hr : reachable st).
  { pose proof (reachable_iterrows df idx st0 0 Hr0) as H.
    now rewrite Hrun in H. }
  assert (Hh : is_field_header row = true).
  { apply is_field_header_iff. split; [exact H1|].
    split; intros E; rewrite E in Hlen; simpl in Hlen; lia. }
  destruct (header_row_creates st sec row (Some nr) t
              (col2 row ++ col2 nr)%string Hr Ht Hne Hmode Hc Hh)
    as (rec & Hrec & Hstep).
  { right. split; [exact Hlen|]. exists nr. repeat split.
    apply has_continuation_iff. auto. }
  rewrite (iterrows_one_more df idx 0 st0 st row Hrun Hrow).
  simpl Nat.add. rewrite Hnext, Hstep.
  destruct (created_entry_lookup st sec t (col2 row ++ col2 nr)%string rec
              (mkFieldInfo (col3 row) (col4 row) (norm_foreign_key (col5 row))))
    as (Hcur & rec' & Hrec' & Hfi).
  eexists; exists rec'; eexists. split; [reflexivity|].
  split; [exact Hcur|]. split; [exact Hrec'|]. split; [exact Hfi|].
  simpl. split; [reflexivity|]. split; [reflexivity|].
  apply norm_foreign_key_spec.
Qed.

(** In [doc_account] the key field header ["ACCOUNT_OPEN_DATE_T"],
    followed by the piece ["IMESTAMP"], gives the key
    ["ACCOUNT_OPEN_DATE_TIMESTAMP"]. *)
Lemma C3_truncated_field_name_reassembled_witness :
  exists st' rec' fi,
    iterrows doc_account initial_state 0 3 = (st', None)
    /\ current_Fullname KeyFields st' = Some "ACCOUNT_OPEN_DATE_TIMESTAMP"
    /\ Dict.get "T" (metadata st') = Some rec'
    /\ Dict.get "ACCOUNT_OPEN_DATE_TIMESTAMP" (fields_of KeyFields rec')
       = Some fi
    /\ f_type fi = "DATE"
    /\ f_description fi = "Opening"
    /\ ("nan" = "nan" -> f_foreign_key fi = "")
    /\ ("nan" <> "nan" -> f_foreign_key fi = "nan").
Proof.
  apply (C3_truncated_field_name_reassembled initial_state
           (state_after doc_account 2) doc_account 2 KeyFields
           (mkRow "nan" "ACCOUNT_OPEN_DATE_T" "DATE" "Opening" "nan")
           (mkRow "1" "IMESTAMP" "nan" "nan" "nan") "T").
  - constructor.
  - reflexivity.
  - reflexivity.
  - reflexivity.
  - reflexivity.
  - discriminate.
  - reflexivity.
  - reflexivity.
  - reflexivity.
  - simpl. lia.
  - discriminate.
  - discriminate.
  - discriminate.
  - discriminate.
Defined.

(** C8: whenever a header row creates an entry, in the key or in the
    normal fields, under its own name or under a reassembled name, the
    stored foreign key is the empty string if column 5 is ["nan"] and
    column 5 itself otherwise. *)
Theorem C8_foreign_key_normalized (st : State) (sec : section) (row : Row)
  (next_row : option Row) (t name : string) :
  reachable st ->
  table_name st = Some t -> t <> "" ->
  section_mode st = Some sec ->
  classify row = DataRow ->
  col1 row = "nan" -> col2 row <> "" -> col2 row <> "nan" ->
  (String.length (col2 row) < 19 /\ name = col2 row)
  \/ (19 <= String.length (col2 row)
      /\ exists nr, next_row = Some nr
                    /\ col1 nr <> "nan" /\ col2 nr <> "nan"
                    /\ name = (col2 row ++ col2 nr)%string) ->
  exists st' rec' fi,
    process_row st row next_row = Continue st'
    /\ Dict.get t (metadata st') = Some rec'
    /\ Dict.get name (fields_of sec rec') = Some fi
    /\ (col5 row = "nan" -> f_foreign_key fi = "")
    /\ (col5 row <> "nan" -> f_foreign_key fi = col5 row).
Proof.
  intros Hr Ht Hne Hmode Hc H1 H2 H2' Hname.
  assert (Hh : is_field_header row = true)
    by (apply is_field_header_iff; auto).
  destruct (header_row_creates st sec row next_row t name
              Hr Ht Hne Hmode Hc Hh)
    as (rec & Hrec & Hstep).
  { destruct Hname as [H | (Hlen & nr & Hn & Hn1 & Hn2 & Hnm)];
      [left; exact H | right].
    split; [exact Hlen|]. exists nr. repeat split; try assumption.
    apply has_continuation_iff. auto. }
  rewrite Hstep.
  destruct (created_entry_lookup st sec t name rec
              (mkFieldInfo (col3 row) (col4 row) (norm_foreign_key (col5 row))))
    as (_ & rec' & Hrec' & Hfi).
  eexists; exists rec'; eexists. split; [reflexivity|].
  split; [exact Hrec'|]. split; [exact Hfi|].
  simpl. apply norm_foreign_key_spec.
Qed.

Lemma C8_foreign_key_normalized_witness :
  exists st' rec' fi,
    process_row (state_after doc_account 5)
      (mkRow "nan" "status" "CHAR" "Current" "nan") None = Continue st'
    /\ Dict.get "T" (metadata st') = Some rec'
    /\ Dict.get "status" (fields_of NormalFields rec') = Some fi
    /\ ("nan" = "nan" -> f_foreign_key fi = "")
    /\ ("nan" <> "nan" -> f_foreign_key fi = "nan").
Proof.
  apply (C8_foreign_key_normalized (state_after doc_account 5) NormalFields
           (mkRow "nan" "status" "CHAR" "Current" "nan") None "T" "status").
  - apply reachable_state_after.
  - reflexivity.
  - discriminate.
  - reflexivity.
  - reflexivity.
  - reflexivity.
  - discriminate.
  - discriminate.
  - left. simpl. split; [lia | reflexivity].
Defined.

(** ** Continuation rows *)

Lemma field_names_replace (m : Metadata) (t : string) (rec rec' : TableMetadata) :
  Dict.get t m = Some rec ->
  Dict.keys (tm_key_fields rec') = Dict.keys (tm_key_fields rec) ->
  Dict.keys (tm_normal_fields rec') = Dict.keys (tm_normal_fields rec) ->
  field_names (Dict.set t rec' m) = field_names m.
Proof.
  intros Hrec Hk Hn. unfold field_names.
  apply (DictFacts.set_present_map _ _ _ t rec' rec m Hrec).
  - simpl. now rewrite Hk, Hn.
  - intros k1 k2 w E. apply String.eqb_eq in E. now subst.
Qed.

Lemma append_description_eq (st : State) (sec : section) (row : Row)
  (t name : string) (rec : TableMetadata) (fi : FieldInfo) :
  table_name st = Some t -> Dict.get t (metadata st) = Some rec ->
  current_Fullname sec st = Some name -> name <> "" ->
  col4 row <> "" -> col4 row <> "nan" -> col4 row <> "Unnamed: 3" ->
  Dict.get name (fields_of sec rec) = Some fi ->
  append_description sec st row
  = Continue
      (with_metadata st
         (Dict.set t
            (with_fields sec rec
               (Dict.set name
                  (mkFieldInfo (f_type fi)
                     (f_description fi ++ " " ++ col4 row)%string
                     (f_foreign_key fi))
                  (fields_of sec rec)))
            (metadata st))).
Proof.
  intros Ht Hrec Hcur Hname H4 H4n H4u Hfi.
  unfold append_description, lookup_table.
  rewrite Hcur, Ht, Hrec, Hfi.
  apply truthy_true_iff in Hname, H4.
  rewrite Hname, H4.
  now rewrite (eqb_false_of_neq _ _ H4n), (eqb_false_of_neq _ _ H4u).
Qed.

(** C5: in a reachable state with an open field section, a continuation
    row (a data row that is not a field header) whose column 4 is not
    empty, not ["nan"] and not ["Unnamed: 3"] appends one space and
    column 4 to the stored description of the current field, in place:
    the entry keeps its type, its foreign key and its position, every
    other entry, the header values of the record, every other record and
    the rest of the interpreter state stay as they were. *)
Theorem C5_continuation_appends_description (st : State) (sec : section)
  (row : Row) (next_row : option Row) (t name : string) :
  reachable st ->
  table_name st = Some t -> t <> "" ->
  section_mode st = Some sec ->
  classify row = DataRow ->
  is_field_header row = false ->
  current_Fullname sec st = Some name -> name <> "" ->
  col4 row <> "" -> col4 row <> "nan" -> col4 row <> "Unnamed: 3" ->
  exists rec fi st' rec',
    Dict.get t (metadata st) = Some rec
    /\ Dict.get name (fields_of sec rec) = Some fi
    /\ process_row st row next_row = Continue st'
    (* the entry *)
    /\ Dict.get t (metadata st') = Some rec'
    /\ Dict.get name (fields_of sec rec')
       = Some (mkFieldInfo (f_type fi)
                 (f_description fi ++ " " ++ col4 row)%string
                 (f_foreign_key fi))
    (* the rest of the record *)
    /\ Dict.keys (fields_of sec rec') = Dict.keys (fields_of sec rec)
    /\ (forall k, k <> name ->
          Dict.get k (fields_of sec rec') = Dict.get k (fields_of sec rec))
    /\ (forall sec', sec' <> sec -> fields_of sec' rec' = fields_of sec' rec)
    /\ tm_table_name rec' = tm_table_name rec
    /\ tm_table_synonym rec' = tm_table_synonym rec
    /\ tm_table_description rec' = tm_table_description rec
    /\ tm_module_name rec' = tm_module_name rec
    (* the rest of the mapping and of the state *)
    /\ Dict.keys (metadata st') = Dict.keys (metadata st)
    /\ (forall t', t' <> t ->
          Dict.get t' (metadata st') = Dict.get t' (metadata st))
    /\ table_name st' = table_name st
    /\ in_key_field_section st' = in_key_field_section st
    /\ in_field_section st' = in_field_section st
    /\ results st' = results st
    /\ current_Key_Field_Fullname st' = current_Key_Field_Fullname st
    /\ current_Normal_Field_Fullname st' = current_Normal_Field_Fullname st.
Proof.
  intros Hr Ht Hne Hmode Hc Hh Hcur Hname H4 H4n H4u.
  pose proof (reachable_wf st Hr) as Hwf.
  destruct (wf_table Hwf Ht) as [rec Hrec].
  destruct (wf_current Hwf sec (section_mode_flag st sec Hmode) Hcur Ht Hrec)
    as [fi Hfi].
  exists rec, fi. eexists. eexists.
  split; [exact Hrec|]. split; [exact Hfi|].
  split.
  { rewrite (process_data_row st row next_row sec Hc
               (truthy_opt_some st t Ht Hne) Hmode).
    unfold process_field_row. rewrite Hh.
    now apply (append_description_eq st sec row t name rec fi). }
  simpl.
  split; [apply DictFacts.get_set_same|].
  rewrite fields_of_with_fields.
  split; [apply DictFacts.get_set_same|].
  split; [apply (DictFacts.keys_set_present _ _ _ _ _ Hfi)|].
  split; [intros k Hk; now apply DictFacts.get_set_other|].
  split; [intros sec' Hs; now apply fields_of_with_fields_other|].
  split; [now destruct sec|]. split; [now destruct sec|].
  split; [now destruct sec|]. split; [now destruct sec|].
  split; [apply (DictFacts.keys_set_present _ _ _ _ _ Hrec)|].
  split; [intros t' Ht'; apply DictFacts.get_set_other; congruence|].
  repeat split.
Qed.

(** The field ["status"], created with the description ["Current"],
    ends with ["Current value of account."] after the continuation row
    whose column 4 is ["value of account."]. *)
Lemma C5_continuation_appends_description_witness :
  exists rec fi st' rec',
    Dict.get "T" (metadata (state_after doc_account 6)) = Some rec
    /\ Dict.get "status" (fields_of NormalFields rec) = Some fi
    /\ process_row (state_after doc_account 6)
         (mkRow "2" "nan" "nan" "value of account." "nan") None
       = Continue st'
    /\ Dict.get "T" (metadata st') = Some rec'
    /\ Dict.get "status" (fields_of NormalFields rec')
       = Some (mkFieldInfo (f_type fi)
                 (f_description fi ++ " " ++ "value of account.")%string
                 (f_foreign_key fi))
    /\ f_description fi = "Current"
    /\ (f_description fi ++ " " ++ "value of account.")%string
       = "Current value of account.".
Proof.
  destruct (C5_continuation_appends_description (state_after doc_account 6)
              NormalFields
              (mkRow "2" "nan" "nan" "value of account." "nan") None
              "T" "status") as (rec & fi & st' & rec' & H1 & H2 & H3 & H4 & H5 & _).
  - apply reachable_state_after.
  - reflexivity.
  - discriminate.
  - reflexivity.
  - reflexivity.
  - reflexivity.
  - reflexivity.
  - discriminate.
  - discriminate.
  - discriminate.
  - discriminate.
  - exists rec, fi, st', rec'.
    repeat (split; [assumption|]).
    vm_compute in H1. inversion H1; subst rec.
    vm_compute in H2. inversion H2; subst fi.
    split; reflexivity.
Defined.

Lemma append_description_names (st : State) (sec : section) (row : Row) :
  wf st -> truthy_opt (table_name st) = true -> section_mode st = Some sec ->
  exists st',
    append_description sec st row = Continue st'
    /\ field_names (metadata st') = field_names (metadata st)
    /\ current_Key_Field_Fullname st' = current_Key_Field_Fullname st
    /\ current_Normal_Field_Fullname st' = current_Normal_Field_Fullname st.
Proof.
  intros Hwf Htruthy Hmode.
  destruct (wf_lookup_table st Hwf Htruthy) as (t & rec & Hlook & _).
  pose proof Hlook as Hl. apply lookup_table_inr in Hl. destruct Hl as [Ht Hrec].
  unfold append_description.
  destruct (current_Fullname sec st) as [name|] eqn:Hcur; [|now exists st].
  case_if; [|now exists st].
  rewrite Hlook.
  destruct (wf_current Hwf sec (section_mode_flag st sec Hmode) Hcur Ht Hrec)
    as [fi Hfi].
  rewrite Hfi. eexists. split; [reflexivity|]. simpl.
  split; [|split; reflexivity].
  apply (field_names_replace _ _ rec _ Hrec);
    destruct sec; simpl; try reflexivity;
    apply (DictFacts.keys_set_present _ _ _ _ _ Hfi).
Qed.

Lemma append_description_nothing (sec : section) (st : State) (row : Row) :
  col4 row = "" \/ col4 row = "nan" \/ col4 row = "Unnamed: 3"
  \/ current_Fullname sec st = None ->
  append_description sec st row = Continue st.
Proof.
  intros H. unfold append_description.
  destruct (current_Fullname sec st) as [name|]; [|reflexivity].
  destruct H as [-> | [-> | [-> | H]]]; [| | |discriminate];
    simpl; now rewrite ?andb_false_r.
Qed.

(** C4, as amended: when the row loop comes to a data row with a
    non-empty table name current and a field section open, the row is
    handled as a new field header exactly when column 1 is the literal
    ["nan"] and column 2 is neither empty nor ["nan"]; an empty
    column 1 does not make a header.  A header row with a name shorter
    than 19 characters stores the entry built from its columns 3 to 5
    under that name and makes it the current field; with a longer name
    it does so under the name followed by column 2 of the next row of
    the document when that row has no ["nan"] in columns 1 and 2, and
    otherwise changes nothing.  Any other row is handled as a
    continuation row: the field names of every collection and the
    current field names stay as they are, and nothing at all changes
    when column 4 is empty, ["nan"] or ["Unnamed: 3"] or when no field
    is current. *)
Theorem C4_header_iff_column1_is_nan (st0 st : State) (df : Document)
  (idx : nat) (sec : section) (row : Row) (t : string) :
  reachable st0 ->
  iterrows df st0 0 idx = (st, None) ->
  nth_error df idx = Some row ->
  table_name st = Some t -> t <> "" ->
  section_mode st = Some sec ->
  classify row = DataRow ->
  (col1 row = "nan" /\ col2 row <> "" /\ col2 row <> "nan" ->
   (String.length (col2 row) < 19 ->
    exists st',
      iterrows df st0 0 (S idx) = (st', None)
      /\ entry_stored sec t (col2 row) row st')
   /\ (19 <= String.length (col2 row) ->
       forall nr,
         nth_error df (idx + 1) = Some nr ->
         col1 nr <> "nan" -> col2 nr <> "nan" ->
         exists st',
           iterrows df st0 0 (S idx) = (st', None)
           /\ entry_stored sec t (col2 row ++ col2 nr)%string row st')
   /\ (19 <= String.length (col2 row) ->
       nth_error df (idx + 1) = None
       \/ (exists nr, nth_error df (idx + 1) = Some nr
                      /\ (col1 nr = "nan" \/ col2 nr = "nan")) ->
       iterrows df st0 0 (S idx) = (st, None)))
  /\ (~ (col1 row = "nan" /\ col2 row <> "" /\ col2 row <> "nan") ->
      exists st',
        iterrows df st0 0 (S idx) = (st', None)
        /\ field_names (metadata st') = field_names (metadata st)
        /\ current_Key_Field_Fullname st' = current_Key_Field_Fullname st
        /\ current_Normal_Field_Fullname st'
           = current_Normal_Field_Fullname st
        /\ (col4 row = "" \/ col4 row = "nan" \/ col4 row = "Unnamed: 3"
            \/ current_Fullname sec st = None ->
            st' = st)).
Proof.
  intros Hr0 Hrun Hrow Ht Hne Hmode Hc.
  assert (Hr : reachable st).
  { pose proof (reachable_iterrows df idx st0 0 Hr0) as H.
    now rewrite Hrun in H. }
  pose proof (truthy_opt_some st t Ht Hne) as Htruthy.
  pose proof (iterrows_one_more df idx 0 st0 st row Hrun Hrow) as Hone.
  simpl Nat.add in Hone.
  assert (Hcreate : forall name,
             (String.length (col2 row) < 19 /\ name = col2 row)
             \/ (19 <= String.length (col2 row)
                 /\ exists nr, nth_error df (idx + 1) = Some nr
                               /\ has_continuation nr = true
                               /\ name = (col2 row ++ col2 nr)%string) ->
             is_field_header row = true ->
             exists st',
               iterrows df st0 0 (S idx) = (st', None)
               /\ entry_stored sec t name row st').
  { intros name Hname Hh.
    destruct (header_row_creates st sec row (nth_error df (idx + 1)) t name
                Hr Ht Hne Hmode Hc Hh Hname) as (rec & Hrec & Hstep).
    rewrite Hone, Hstep. eexists. split; [reflexivity|].
    apply created_entry_stored. }
  split.
  - intros Hh. apply is_field_header_iff in Hh. split; [|split].
    + intros Hlen. apply Hcreate; [now left | exact Hh].
    + intros Hlen nr Hnext Hn1 Hn2. apply Hcreate; [|exact Hh].
      right. split; [exact Hlen|]. exists nr.
      split; [exact Hnext|]. split; [|reflexivity].
      apply has_continuation_iff. auto.
    + intros Hlen Hnext. rewrite Hone.
      rewrite (process_data_row st row _ sec Hc Htruthy Hmode).
      unfold process_field_row. apply Nat.leb_le in Hlen.
      rewrite Hh, Hlen.
      destruct Hnext as [-> | (nr & -> & Hnr)]; [reflexivity|].
      assert (Hcont : has_continuation nr = false).
      { unfold has_continuation. destruct Hnr as [-> | ->]; simpl;
          now rewrite ?andb_false_r. }
      now rewrite Hcont.
  - intros Hnh.
    assert (Hh : is_field_header row = false).
    { destruct (is_field_header row) eqn:E; [|reflexivity].
      apply is_field_header_iff in E. contradiction. }
    assert (Hstep : process_row st row (nth_error df (idx + 1))
                    = append_description sec st row).
    { rewrite (process_data_row st row _ sec Hc Htruthy Hmode).
      unfold process_field_row. now rewrite Hh. }
    destruct (append_description_names st sec row (reachable_wf st Hr)
                Htruthy Hmode) as (st' & Happ & Hnames & Hk & Hn).
    exists st'. rewrite Hone, Hstep, Happ.
    split; [reflexivity|]. split; [exact Hnames|].
    split; [exact Hk|]. split; [exact Hn|].
    intros Hnothing.
    rewrite (append_description_nothing sec st row Hnothing) in Happ.
    now inversion Happ.
Qed.

(** In [doc_account] the header row of ["status"], met in the normal
    field section, stores its entry. *)
Lemma C4_header_iff_column1_is_nan_witness :
  exists st',
    iterrows doc_account initial_state 0 6 = (st', None)
    /\ entry_stored NormalFields "T" "status"
         (mkRow "nan" "status" "CHAR" "Current" "STATUS_REF") st'.
Proof.
  destruct (C4_header_iff_column1_is_nan initial_state
              (state_after doc_account 5) doc_account 5 NormalFields
              (mkRow "nan" "status" "CHAR" "Current" "STATUS_REF") "T")
    as [Hheader _].
  - constructor.
  - reflexivity.
  - reflexivity.
  - reflexivity.
  - discriminate.
  - reflexivity.
  - reflexivity.
  - destruct Hheader as [Hshort _].
    + split; [reflexivity|]. split; discriminate.
    + apply Hshort. simpl. lia.
Defined.

(** C4 as stated fails: with an empty column 1 and the name ["x"] in
    column 2 the row would be a header by that rule, but the code, which
    compares column 1 with ["nan"] only, handles it as a continuation
    row: no entry ["x"] is created and column 4 goes to the description
    of the current field ["status"].  And a row with ["nan"] in
    column 1 and a name in column 2 is not handled as a header, but
    skipped, when the table was announced with an empty name. *)
Lemma C4_counterexample :
  let st := state_after doc_account 6 in
  let row := mkRow "" "x" "INT" "more" "nan" in
  ~ (forall r : Row,
        is_field_header r = true
        <-> (col1 r = "" \/ col1 r = "nan")
            /\ col2 r <> "" /\ col2 r <> "nan")
  /\ (classify row = DataRow
   /\ section_mode st = Some NormalFields
   /\ table_name st = Some "T")
  /\ ((col1 row = "" \/ col1 row = "nan")
      /\ col2 row <> "" /\ col2 row <> "nan")
  /\ is_field_header row = false
  /\ (exists st' rec',
         process_row st row None = Continue st'
         /\ Dict.get "T" (metadata st') = Some rec'
         /\ Dict.get "x" (tm_normal_fields rec') = None
         /\ Dict.get "x" (tm_key_fields rec') = None
         /\ Dict.get "status" (tm_normal_fields rec')
            = Some (mkFieldInfo "CHAR" "Current more" "STATUS_REF"))
  /\ (section_mode (state_after doc_unnamed 2) = Some KeyFields
      /\ process_row (state_after doc_unnamed 2)
           (mkRow "nan" "id" "NUMBER" "Identifier" "nan") None
         = Continue (state_after doc_unnamed 2)).
Proof.
  simpl. split.
  { intros H.
    destruct (H (mkRow "" "x" "INT" "more" "nan")) as [_ Hback].
    discriminate Hback.
    split; [now left | split; discriminate]. }
  split; [repeat split|].
  split; [split; [now left | split; discriminate]|].
  split; [reflexivity|].
  split; [|split; reflexivity].
  eexists. eexists. split; [reflexivity|].
  split; [reflexivity|]. repeat split.
Qed.

(** ** Invariants along the loops *)

Section LoopInvariant.
Variable Inv : State -> Prop.
Variable good : Row -> Prop.
Hypothesis Inv_step : forall st row next_row,
  Inv st -> good row ->
  match process_row st row next_row with
  | Continue st' | Raise _ st' => Inv st'
  end.

Lemma iterrows_invariant (df : Document) (n : nat) :
  forall idx st,
    Inv st ->
    (forall i row, idx <= i < idx + n -> nth_error df i = Some row -> good row) ->
    Inv (fst (iterrows df st idx n)).
Proof.
  induction n as [|n IH]; intros idx st Hst Hgood; simpl; [exact Hst|].
  destruct (nth_error df idx) as [row|] eqn:Hrow; [|exact Hst].
  assert (Hg : good row) by (apply (Hgood idx); [lia | exact Hrow]).
  pose proof (Inv_step st row (nth_error df (idx + 1)) Hst Hg) as Hstep.
  destruct (process_row st row (nth_error df (idx + 1))) as [st'|e st'].
  - apply IH; [exact Hstep|].
    intros i r Hi. apply Hgood. lia.
  - exact Hstep.
Qed.

Lemma prefix_invariant (df : Document) (n : nat) (st : State) :
  Inv st ->
  (forall row, In row (firstn n df) -> good row) ->
  Inv (fst (iterrows df st 0 n)).
Proof.
  intros Hst Hgood. apply iterrows_invariant; [exact Hst|].
  intros i row Hi Hrow. apply Hgood.
  apply (nth_error_In _ i). rewrite nth_error_firstn.
  destruct (Nat.ltb_spec i n); [exact Hrow | lia].
Qed.

Lemma process_file_invariant (df : Document) (st : State) :
  Inv st -> (forall row, In row df -> good row) -> Inv (process_file st df).
Proof.
  intros Hst Hgood. unfold process_file.
  apply prefix_invariant; [exact Hst|].
  rewrite firstn_all. exact Hgood.
Qed.

Lemma process_files_invariant (files : list Document) :
  forall st,
    Inv st ->
    (forall df row, In df files -> In row df -> good row) ->
    Inv (process_files st files).
Proof.
  induction files as [|df files IH]; intros st Hst Hgood; simpl; [exact Hst|].
  apply IH.
  - apply process_file_invariant; [exact Hst|].
    intros row Hrow. apply (Hgood df); [now left | exact Hrow].
  - intros df' row Hdf. apply Hgood. now right.
Qed.
End LoopInvariant.

(** ** Before the first table name *)

Lemma update_record_without_table (st : State)
  (upd : TableMetadata -> TableMetadata) :
  table_name st = None ->
  update_record st upd = Raise (KeyError_table None) st.
Proof.
  intros Ht. unfold update_record, lookup_table. now rewrite Ht.
Qed.

(** Without a table name, a row other than a 'Table Name' row leaves
    the table name, the mapping and the list of names alone. *)
Lemma no_table_step (st : State) (row : Row) (next_row : option Row) :
  table_name st = None ->
  classify row <> TableNameRow ->
  match process_row st row next_row with
  | Continue st' | Raise _ st' =>
      table_name st' = None /\ metadata st' = metadata st
      /\ results st' = results st
  end.
Proof.
  intros Ht Hc. unfold process_row.
  destruct (classify row); try congruence;
    rewrite ?(update_record_without_table st _ Ht); simpl; auto.
  rewrite Ht. simpl. auto.
Qed.

(** The three header rows of a table raise when no table name is set:
    [metadata[None]] is a [KeyError]. *)
Lemma marker_row_without_table_raises (st : State) (row : Row)
  (next_row : option Row) :
  table_name st = None ->
  classify row = TableSynonymRow \/ classify row = TableCommentsRow
  \/ classify row = ModuleNameRow ->
  process_row st row next_row = Raise (KeyError_table None) st.
Proof.
  intros Ht Hc. unfold process_row.
  destruct Hc as [-> | [-> | ->]]; now apply update_record_without_table.
Qed.

(** ... and, unless it starts a section, the section flags too. *)
Lemma no_table_no_section_step (st : State) (row : Row)
  (next_row : option Row) :
  table_name st = None ->
  classify row <> TableNameRow ->
  classify row <> KeyFieldSectionStart ->
  classify row <> NormalFieldSectionStart ->
  match process_row st row next_row with
  | Continue st' | Raise _ st' =>
      in_key_field_section st' = in_key_field_section st
      /\ in_field_section st' = in_field_section st
  end.
Proof.
  intros Ht Hc Hk Hn. unfold process_row.
  destruct (classify row); try congruence;
    rewrite ?(update_record_without_table st _ Ht); simpl; auto.
  rewrite Ht. simpl. auto.
Qed.

(** C2 as stated fails: a 'Key Field Name' row met before any 'Table
    Name' row sets the key field section flag. *)
Lemma C2_counterexample :
  ~ (forall (df : Document) (n : nat),
        (forall row, In row (firstn n df) -> classify row <> TableNameRow) ->
        metadata (state_after df n) = Dict.empty
        /\ in_key_field_section (state_after df n) = false
        /\ in_field_section (state_after df n) = false).
Proof.
  intros H.
  destruct (H [row_key_section] 1) as (_ & Hkey & _).
  - simpl. intros row [<- | []]. discriminate.
  - discriminate.
Qed.

(** C2, as amended: after any prefix of the row stream (whole documents
    followed by the first [n] rows of the next one) without a 'Table
    Name' row, the mapping is empty, so no field entry exists, no table
    name is set and no name is recorded; the two section flags are
    unset as long as the prefix holds no section start row either. *)
Theorem C2_no_table_name_no_entries (files : list Document) (df : Document)
  (n : nat) :
  (forall doc row, In doc files -> In row doc -> classify row <> TableNameRow) ->
  (forall row, In row (firstn n df) -> classify row <> TableNameRow) ->
  let st := fst (iterrows df (final_state files) 0 n) in
  metadata st = Dict.empty
  /\ table_name st = None
  /\ results st = []
  /\ ((forall doc row, In doc files -> In row doc ->
         classify row <> KeyFieldSectionStart
         /\ classify row <> NormalFieldSectionStart) ->
      (forall row, In row (firstn n df) ->
         classify row <> KeyFieldSectionStart
         /\ classify row <> NormalFieldSectionStart) ->
      in_key_field_section st = false /\ in_field_section st = false).
Proof.
  intros Hfiles Hdf st.
  set (Inv := fun s : State =>
                table_name s = None /\ metadata s = Dict.empty
                /\ results s = []).
  assert (Hstep : forall s row next_row,
             Inv s -> classify row <> TableNameRow ->
             match process_row s row next_row with
             | Continue s' | Raise _ s' => Inv s'
             end).
  { intros s row next_row (Ht & Hm & Hres) Hc.
    pose proof (no_table_step s row next_row Ht Hc) as H.
    destruct (process_row s row next_row) as [s'|e s'];
      destruct H as (H1 & H2 & H3); unfold Inv; rewrite H2, H3; auto. }
  assert (Hst : Inv st).
  { apply (prefix_invariant Inv _ Hstep); [|exact Hdf].
    apply (process_files_invariant Inv _ Hstep); [|exact Hfiles].
    repeat split. }
  destruct Hst as (Ht & Hm & Hres).
  repeat (split; [assumption|]).
  intros Hfiles' Hdf'.
  set (Inv2 := fun s : State =>
                 Inv s /\ in_key_field_section s = false
                 /\ in_field_section s = false).
  set (good2 := fun row : Row =>
                  classify row <> TableNameRow
                  /\ classify row <> KeyFieldSectionStart
                  /\ classify row <> NormalFieldSectionStart).
  assert (Hstep2 : forall s row next_row,
             Inv2 s -> good2 row ->
             match process_row s row next_row with
             | Continue s' | Raise _ s' => Inv2 s'
             end).
  { intros s row next_row (HI & Hk & Hn) (Hc & Hck & Hcn).
    pose proof (Hstep s row next_row HI Hc) as H.
    pose proof (no_table_no_section_step s row next_row
                  (proj1 HI) Hc Hck Hcn) as H'.
    destruct (process_row s row next_row) as [s'|e s'];
      destruct H' as (H1 & H2); unfold Inv2; rewrite H1, H2; auto. }
  assert (Hst2 : Inv2 st).
  { apply (prefix_invariant Inv2 good2 Hstep2).
    - apply (process_files_invariant Inv2 good2 Hstep2).
      + repeat split.
      + intros doc row Hd Hr. split; [now apply (Hfiles doc)|].
        now apply (Hfiles' doc).
    - intros row Hr. split; [now apply Hdf | now apply Hdf']. }
  destruct Hst2 as (_ & Hk & Hn). auto.
Qed.

Lemma C2_no_table_name_no_entries_witness :
  let st := fst (iterrows [row_key_section; row_table "T"]
                   (final_state [[row_synonym "ACCT"]]) 0 1) in
  metadata st = Dict.empty /\ table_name st = None /\ results st = [].
Proof.
  destruct (C2_no_table_name_no_entries [[row_synonym "ACCT"]]
              [row_key_section; row_table "T"] 1) as (H1 & H2 & H3 & _).
  - intros doc row [<- | []] [<- | []]. discriminate.
  - simpl. intros row [<- | []]. discriminate.
  - auto.
Defined.

(** ** What a 'Table Name' row forgets *)

Lemma same_view_refl (T : string) (st : State) : same_view T st st.
Proof. now split. Qed.

(** Storing the same record under the current table on both sides. *)
Lemma same_view_replace (T : string) (s1 s2 : State) (t : string)
  (rec : TableMetadata) :
  same_view T s1 s2 -> table_name s1 = Some t ->
  same_view T (with_metadata s1 (Dict.set t rec (metadata s1)))
              (with_metadata s2 (Dict.set t rec (metadata s2))).
Proof.
  intros Hsv Ht. split; simpl; try apply Hsv.
  - intros t0 Ht0. rewrite Ht in Ht0. inversion Ht0; subst t0.
    now rewrite !DictFacts.get_set_same.
  - destruct (String.eqb t T) eqn:E.
    + apply String.eqb_eq in E. subst T.
      now rewrite !DictFacts.get_set_same.
    + apply String.eqb_neq in E.
      rewrite !(DictFacts.get_set_other _ _ _ _ _ E). exact (sv_T Hsv).
Qed.

Lemma same_view_lookup_table (T : string) (s1 s2 : State) :
  same_view T s1 s2 -> lookup_table s1 = lookup_table s2.
Proof.
  intros Hsv. unfold lookup_table. rewrite <- (sv_table Hsv).
  destruct (table_name s1) as [t|] eqn:Ht; [|reflexivity].
  now rewrite <- (sv_record Hsv Ht).
Qed.

Lemma same_view_update_record (T : string) (s1 s2 : State)
  (upd : TableMetadata -> TableMetadata) :
  same_view T s1 s2 ->
  same_outcome T (update_record s1 upd) (update_record s2 upd).
Proof.
  intros Hsv. unfold update_record.
  rewrite <- (same_view_lookup_table T s1 s2 Hsv).
  destruct (lookup_table s1) as [e|[t rec]] eqn:E; simpl; [now split|].
  apply lookup_table_inr in E. now apply same_view_replace.
Qed.

Lemma same_view_with_current (T : string) (s1 s2 : State) (sec : section)
  (name : option string) :
  same_view T s1 s2 ->
  same_view T (with_current_Fullname sec s1 name)
              (with_current_Fullname sec s2 name).
Proof.
  intros [H1 H2 H3 H4 H5 H6].
  destruct sec; split; simpl; auto; intros [] H; simpl; auto.
  - exact (H4 NormalFields H).
  - exact (H4 KeyFields H).
Qed.

Lemma same_view_process_field_row (T : string) (s1 s2 : State)
  (sec : section) (row : Row) (next_row : option Row) :
  same_view T s1 s2 -> section_flag sec s1 = true ->
  same_outcome T (process_field_row sec s1 row next_row)
                 (process_field_row sec s2 row next_row).
Proof.
  intros Hsv Hflag.
  assert (Hcreate : forall name,
             same_outcome T (create_field sec s1 name row)
                            (create_field sec s2 name row)).
  { intros name. unfold create_field.
    now apply same_view_update_record, same_view_with_current. }
  unfold process_field_row.
  destruct (is_field_header row).
  - destruct (Nat.leb 19 (String.length (col2 row))); [|apply Hcreate].
    destruct next_row as [nr|]; [|exact Hsv].
    destruct (has_continuation nr); [apply Hcreate | exact Hsv].
  - unfold append_description.
    rewrite <- (sv_current Hsv sec Hflag).
    destruct (current_Fullname sec s1) as [name|]; [|exact Hsv].
    case_if; [|exact Hsv].
    rewrite <- (same_view_lookup_table T s1 s2 Hsv).
    destruct (lookup_table s1) as [e|[t rec]] eqn:E; simpl; [now split|].
    apply lookup_table_inr in E.
    destruct (Dict.get name (fields_of sec rec)); simpl; [|now split].
    now apply same_view_replace.
Qed.

Lemma same_view_process_row (T : string) (s1 s2 : State) (row : Row)
  (next_row : option Row) :
  same_view T s1 s2 ->
  same_outcome T (process_row s1 row next_row) (process_row s2 row next_row).
Proof.
  intros Hsv. pose proof Hsv as [H1 H2 H3 H4 H5 H6]. unfold process_row.
  destruct (classify row); try now apply same_view_update_record.
  - simpl. split; simpl; try reflexivity.
    + intros [] H; discriminate.
    + intros t Ht. inversion Ht; subst t.
      now rewrite !DictFacts.get_set_same.
    + destruct (String.eqb (col3 row) T) eqn:E.
      * apply String.eqb_eq in E. subst T.
        now rewrite !DictFacts.get_set_same.
      * apply String.eqb_neq in E.
        rewrite !(DictFacts.get_set_other _ _ _ _ _ E). exact (sv_T Hsv).
  - simpl. split; simpl; auto.
    intros [] H; simpl in *; [reflexivity | discriminate].
  - simpl. split; simpl; auto.
    intros [] H; simpl in *; [discriminate | reflexivity].
  - rewrite <- (sv_table Hsv).
    destruct (negb (truthy_opt (table_name s1))); [exact Hsv|].
    assert (Hmode : section_mode s2 = section_mode s1).
    { unfold section_mode. now rewrite <- (sv_key Hsv), <- (sv_normal Hsv). }
    rewrite Hmode.
    destruct (section_mode s1) as [sec|] eqn:E; [|exact Hsv].
    apply same_view_process_field_row; [exact Hsv|].
    now apply section_mode_flag.
Qed.

Lemma same_view_iterrows (T : string) (df : Document) (n : nat) :
  forall idx s1 s2,
    same_view T s1 s2 ->
    same_view T (fst (iterrows df s1 idx n)) (fst (iterrows df s2 idx n)).
Proof.
  induction n as [|n IH]; intros idx s1 s2 Hsv; simpl; [exact Hsv|].
  destruct (nth_error df idx) as [row|]; [|exact Hsv].
  pose proof (same_view_process_row T s1 s2 row (nth_error df (idx + 1)) Hsv)
    as H.
  destruct (process_row s1 row (nth_error df (idx + 1))) as [a|e a];
    destruct (process_row s2 row (nth_error df (idx + 1))) as [b|e' b];
    simpl in H; try contradiction.
  - now apply IH.
  - apply H.
Qed.

Lemma same_view_process_files (T : string) (files : list Document) :
  forall s1 s2,
    same_view T s1 s2 ->
    same_view T (process_files s1 files) (process_files s2 files).
Proof.
  induction files as [|df files IH]; intros s1 s2 Hsv; simpl; [exact Hsv|].
  apply IH. now apply same_view_iterrows.
Qed.

(** C6: a 'Table Name' row stores a fresh record (no synonym,
    description or module, no fields) under the name in column 3,
    whatever was stored under that name before, leaves the other
    records alone, unsets both section flags and appends the name to
    the list of names, on every occurrence.  Hence the record found
    under that name once the rest of the document and any further
    documents are processed is the same whatever state the row was met
    in: it reflects the rows after that occurrence only. *)
Theorem C6_table_name_row_starts_afresh (st : State) (row : Row)
  (next_row : option Row) :
  classify row = TableNameRow ->
  (exists st',
      process_row st row next_row = Continue st'
      /\ table_name st' = Some (col3 row)
      /\ Dict.get (col3 row) (metadata st')
         = Some (mkTableMetadata (col3 row) None None None [] [])
      /\ (forall k, k <> col3 row ->
            Dict.get k (metadata st') = Dict.get k (metadata st))
      /\ in_key_field_section st' = false
      /\ in_field_section st' = false
      /\ results st' = results st ++ [col3 row])
  /\ (forall (st2 : State) (df : Document) (idx n : nat)
             (files : list Document),
         nth_error df idx = Some row ->
         let run s := process_files (fst (iterrows df s idx (S n))) files in
         Dict.get (col3 row) (metadata (run st))
         = Dict.get (col3 row) (metadata (run st2))).
Proof.
  intros Hc. split.
  - unfold process_row. rewrite Hc. eexists. split; [reflexivity|]. simpl.
    split; [reflexivity|].
    split; [apply DictFacts.get_set_same|].
    split; [|auto].
    intros k Hk. apply DictFacts.get_set_other. congruence.
  - intros st2 df idx n files Hrow run. unfold run.
    apply (sv_T (T := col3 row)).
    apply same_view_process_files.
    simpl. rewrite Hrow. unfold process_row. rewrite Hc.
    apply same_view_iterrows.
    split; simpl; try reflexivity.
    + intros [] H; discriminate.
    + intros t Ht. inversion Ht; subst t.
      now rewrite !DictFacts.get_set_same.
    + now rewrite !DictFacts.get_set_same.
Qed.

(** With ["T"] announced twice, the final record of ["T"] holds the
    field met after the second announcement and nothing of the first. *)
Lemma C6_table_name_row_starts_afresh_witness :
  (exists st',
      process_row (state_after doc_twice 3) (row_table "T") None = Continue st'
      /\ table_name st' = Some "T"
      /\ Dict.get "T" (metadata st')
         = Some (mkTableMetadata "T" None None None [] [])
      /\ results st' = results (state_after doc_twice 3) ++ ["T"])
  /\ Dict.get "T" (metadata (final_state [doc_twice]))
     = Some (mkTableMetadata "T" None None None []
               [("label", mkFieldInfo "CHAR" "Display name" "")])
  /\ results (final_state [doc_twice]) = ["T"; "T"].
Proof.
  destruct (C6_table_name_row_starts_afresh (state_after doc_twice 3)
              (row_table "T") None) as [(st' & H1 & H2 & H3 & _ & _ & _ & H7) _].
  - reflexivity.
  - split; [|split; reflexivity].
    exists st'. auto.
Defined.

(** ** What the caller receives *)

(** C10 as stated fails: the list of names cannot be read off what
    the function returns; announcing ["T"] once or twice returns the
    same mapping while the lists of names differ. *)
Lemma C10_counterexample :
  ~ (exists side_list : returned -> list string,
        forall files,
          side_list (extract_table_details_from_markdown files)
          = results (final_state files)).
Proof.
  intros [side_list H].
  pose proof (H [[row_table "T"]]) as H1.
  pose proof (H [[row_table "T"; row_table "T"]]) as H2.
  vm_compute in H1, H2. congruence.
Qed.

(** C10, as amended: called on at least one document, the function
    returns the mapping from table name to metadata record and nothing
    else (on no document at all it returns an empty list); the list of
    table names in encounter order is kept inside the function, and the
    keys of the returned mapping are that list without its later
    duplicates. *)
Theorem C10_returns_the_mapping_only (files : list Document) :
  (files = [] ->
   extract_table_details_from_markdown files = ReturnedEmptyList)
  /\ (files <> [] ->
      extract_table_details_from_markdown files
      = ReturnedMetadata (metadata (final_state files)))
  /\ Dict.keys (metadata (final_state files))
     = dedup (results (final_state files)).
Proof.
  split; [now intros ->|]. split.
  - destruct files; [congruence | reflexivity].
  - apply wf_keys, reachable_wf, reachable_final_state.
Qed.

Lemma C10_returns_the_mapping_only_witness :
  extract_table_details_from_markdown [doc_twice]
  = ReturnedMetadata (metadata (final_state [doc_twice])).
Proof.
  apply (C10_returns_the_mapping_only [doc_twice]). discriminate.
Defined.

(** * Further properties of the interpreter *)

(** ** When a row raises *)

Lemma classify_table_name_row (row : Row) :
  classify row = TableNameRow <-> is_table_name_row row = true.
Proof.
  unfold classify, is_table_name_row.
  destruct (str_in "Table Name" (col2 row)); [tauto|].
  split; [|discriminate].
  repeat case_if; discriminate.
Qed.

Lemma update_record_with_table (st : State)
  (upd : TableMetadata -> TableMetadata) (t : string) (rec : TableMetadata) :
  table_name st = Some t -> Dict.get t (metadata st) = Some rec ->
  update_record st upd
  = Continue (with_metadata st (Dict.set t (upd rec) (metadata st))).
Proof.
  intros Ht Hrec. unfold update_record, lookup_table. now rewrite Ht, Hrec.
Qed.

(** With a table name set, a reachable state lets every row through. *)
Lemma reachable_with_table_continues (st : State) (row : Row)
  (next_row : option Row) (t : string) :
  reachable st -> table_name st = Some t ->
  exists st', process_row st row next_row = Continue st'.
Proof.
  intros Hr Ht. pose proof (reachable_wf st Hr) as Hwf.
  destruct (wf_table Hwf Ht) as [rec Hrec].
  unfold process_row.
  destruct (classify row); eauto;
    try (rewrite (update_record_with_table st _ t rec Ht Hrec); eauto).
  destruct (truthy_opt (table_name st)) eqn:Htruthy; simpl; eauto.
  destruct (section_mode st) as [sec|] eqn:Hmode; eauto.
  unfold process_field_row.
  destruct (is_field_header row).
  - destruct (Nat.leb 19 (String.length (col2 row))).
    + destruct next_row as [nr|]; eauto.
      destruct (has_continuation nr); eauto.
      rewrite (create_field_eq sec st _ row t rec Ht Hrec). eauto.
    + rewrite (create_field_eq sec st _ row t rec Ht Hrec). eauto.
  - destruct (append_description_names st sec row Hwf Htruthy Hmode)
      as (st' & H & _). eauto.
Qed.

(** X1: in a reachable state a row raises exactly when no table name is
    set and the row is a 'Table Synonym', 'Table Comments' or 'Module
    Name' row; what it raises is the [KeyError] of [metadata[None]],
    and the state is the one the row was met in. *)
Theorem X1_raise_iff_marker_before_table (st : State) (row : Row)
  (next_row : option Row) :
  reachable st ->
  ((exists e st', process_row st row next_row = Raise e st')
   <-> table_name st = None
       /\ (classify row = TableSynonymRow \/ classify row = TableCommentsRow
           \/ classify row = ModuleNameRow))
  /\ (forall e st',
        process_row st row next_row = Raise e st' ->
        e = KeyError_table None /\ st' = st).
Proof.
  intros Hr.
  assert (Hnone : forall e st',
             process_row st row next_row = Raise e st' ->
             table_name st = None).
  { intros e st' H. destruct (table_name st) as [t|] eqn:Ht; [|reflexivity].
    destruct (reachable_with_table_continues st row next_row t Hr Ht)
      as [st'' H'']. congruence. }
  assert (Hmarker : forall e st',
             process_row st row next_row = Raise e st' ->
             classify row = TableSynonymRow \/ classify row = TableCommentsRow
             \/ classify row = ModuleNameRow).
  { intros e st' H. pose proof (Hnone e st' H) as Ht.
    unfold process_row in H. rewrite Ht in H.
    destruct (classify row); auto; simpl in H; discriminate. }
  split; [split|].
  - intros (e & st' & H). split; [eapply Hnone | eapply Hmarker]; eauto.
  - intros [Ht Hc]. exists (KeyError_table None), st.
    now apply marker_row_without_table_raises.
  - intros e st' H.
    pose proof (marker_row_without_table_raises st row next_row
                  (Hnone e st' H) (Hmarker e st' H)) as H'.
    rewrite H' in H. inversion H. auto.
Qed.

Lemma X1_raise_iff_marker_before_table_witness :
  ((exists e st',
       process_row (state_after doc_synonym_first 0) (row_synonym "ACCT")
         None = Raise e st')
   <-> table_name (state_after doc_synonym_first 0) = None
       /\ (classify (row_synonym "ACCT") = TableSynonymRow
           \/ classify (row_synonym "ACCT") = TableCommentsRow
           \/ classify (row_synonym "ACCT") = ModuleNameRow))
  /\ (forall e st',
        process_row (state_after doc_synonym_first 0) (row_synonym "ACCT")
          None = Raise e st' ->
        e = KeyError_table None /\ st' = state_after doc_synonym_first 0).
Proof.
  apply (X1_raise_iff_marker_before_table
           (state_after doc_synonym_first 0) (row_synonym "ACCT") None).
  apply reachable_state_after.
Defined.

(** ** How a row can change the mapping *)

Lemma metadata_step_update_record (st s : State) (row : Row)
  (upd : TableMetadata -> TableMetadata) :
  metadata s = metadata st -> table_name s = table_name st ->
  (forall rec, tm_table_name (upd rec) = tm_table_name rec) ->
  (forall rec sec,
      fields_of sec (upd rec) = fields_of sec rec
      \/ exists name e,
          fields_of sec (upd rec) = Dict.set name e (fields_of sec rec)
          /\ entry_from row (Dict.get name (fields_of sec rec)) e) ->
  match update_record s upd with
  | Continue st' | Raise _ st' => metadata_step st row st'
  end.
Proof.
  intros Hm Ht Hname Hfields. unfold update_record.
  destruct (lookup_table s) as [e|[t rec]] eqn:E; [left; auto|].
  apply lookup_table_inr in E. destruct E as [Ets Eget].
  right. right. exists t, rec, (upd rec). simpl.
  rewrite <- Ht, <- Hm. auto 10.
Qed.

(** Whatever the state, the mapping changes in one of the three ways. *)
Lemma process_row_metadata_step (st : State) (row : Row)
  (next_row : option Row) :
  match process_row st row next_row with
  | Continue st' | Raise _ st' => metadata_step st row st'
  end.
Proof.
  unfold process_row.
  destruct (classify row) eqn:Hc.
  - right. left. simpl. auto.
  - apply metadata_step_update_record; auto.
  - apply metadata_step_update_record; auto.
  - apply metadata_step_update_record; auto.
  - left. simpl. auto.
  - left. simpl. auto.
  - destruct (negb (truthy_opt (table_name st))); [left; auto|].
    destruct (section_mode st) as [sec|]; [|left; auto].
    assert (Hcreate : forall name,
               match create_field sec st name row with
               | Continue st' | Raise _ st' => metadata_step st row st'
               end).
    { intros name. unfold create_field.
      apply metadata_step_update_record.
      - now destruct sec.
      - now destruct sec.
      - now destruct sec.
      - intros rec sec'. destruct sec, sec'; simpl; auto;
          right; eexists; eexists; (split; [reflexivity | now left]). }
    unfold process_field_row.
    destruct (is_field_header row).
    + destruct (Nat.leb 19 (String.length (col2 row))); [|apply Hcreate].
      destruct next_row as [nr|]; [|left; auto].
      destruct (has_continuation nr); [apply Hcreate | left; auto].
    + unfold append_description.
      destruct (current_Fullname sec st) as [name|]; [|left; auto].
      case_if; [|left; auto].
      destruct (lookup_table st) as [e|[t rec]] eqn:E; [left; auto|].
      apply lookup_table_inr in E. destruct E as [Ets Eget].
      destruct (Dict.get name (fields_of sec rec)) as [fi|] eqn:Efi;
        [|left; auto].
      right. right. exists t, rec. eexists. simpl.
      split; [exact Ets|]. split; [exact Ets|]. split; [exact Eget|].
      split; [reflexivity|]. split; [now destruct sec|].
      intros sec'. destruct sec, sec'; simpl; auto;
        right; eexists; eexists;
        (split; [reflexivity | right; exists fi; split; [exact Efi|reflexivity]]).
Qed.

(** ** The association lists are dictionaries *)

Section DictUnique.
Variable V : Type.
Implicit Types (d : Dict.t V) (k : string) (v : V).

Lemma dict_get_none_iff k d : Dict.get k d = None <-> ~ In k (Dict.keys d).
Proof.
  induction d as [|[k' v'] d IH]; simpl; [tauto|].
  destruct (String.eqb k' k) eqn:E.
  - apply String.eqb_eq in E. split; [discriminate | tauto].
  - apply String.eqb_neq in E. rewrite IH. tauto.
Qed.

Lemma dict_set_NoDup k v d :
  NoDup (Dict.keys d) -> NoDup (Dict.keys (Dict.set k v d)).
Proof.
  intros Hnd. destruct (Dict.get k d) as [v0|] eqn:E.
  - now rewrite (DictFacts.keys_set_present V k v v0 d E).
  - rewrite (DictFacts.keys_set_absent V k v d E).
    apply dict_get_none_iff in E.
    apply NoDup_app; [exact Hnd | repeat constructor; intros [] | ].
    intros x Hx [<- | []]. contradiction.
Qed.

Lemma dict_set_Forall (Q : string * V -> Prop) k v d :
  Forall Q d -> Q (k, v) -> Forall Q (Dict.set k v d).
Proof.
  intros Hd Hkv. induction d as [|[k' v'] d IH]; simpl.
  - auto.
  - inversion Hd; subst. destruct (String.eqb k' k); auto.
Qed.

Lemma dict_get_In k v d : Dict.get k d = Some v -> In (k, v) d.
Proof.
  induction d as [|[k' v'] d IH]; simpl; [discriminate|].
  destruct (String.eqb k' k) eqn:E.
  - apply String.eqb_eq in E. intros H. inversion H; subst. now left.
  - auto.
Qed.

Lemma dict_In_get k v d :
  NoDup (Dict.keys d) -> In (k, v) d -> Dict.get k d = Some v.
Proof.
  induction d as [|[k' v'] d IH]; simpl; [tauto|].
  intros Hnd [H | H].
  - inversion H; subst. now rewrite String.eqb_refl.
  - inversion Hnd as [|? ? Hnot Hnd']; subst.
    destruct (String.eqb k' k) eqn:E; [|auto].
    apply String.eqb_eq in E. subst k'.
    exfalso. apply Hnot. change k with (fst (k, v)). now apply in_map.
Qed.
End DictUnique.

Lemma mapping_ok_step (st : State) (row : Row) (st' : State) :
  mapping_ok (metadata st) -> metadata_step st row st' ->
  mapping_ok (metadata st').
Proof.
  intros [Hnd Hall] [[-> _] | [[-> _] | H]].
  - now split.
  - split; [now apply dict_set_NoDup|].
    apply dict_set_Forall; [exact Hall|].
    unfold record_ok. simpl. repeat split; constructor.
  - destruct H as (t & rec & rec' & _ & _ & Hget & -> & Hname & Hfields).
    split; [now apply dict_set_NoDup|].
    apply dict_set_Forall; [exact Hall|].
    apply dict_get_In in Hget.
    rewrite Forall_forall in Hall. destruct (Hall _ Hget) as (Hn & Hk & Hf).
    simpl in *. unfold record_ok. simpl. split; [congruence|].
    split.
    + destruct (Hfields KeyFields) as [E | (name & e & E & _)]; simpl in E;
        rewrite E; [exact Hk | now apply dict_set_NoDup].
    + destruct (Hfields NormalFields) as [E | (name & e & E & _)]; simpl in E;
        rewrite E; [exact Hf | now apply dict_set_NoDup].
Qed.

Lemma reachable_mapping_ok (st : State) :
  reachable st -> mapping_ok (metadata st).
Proof.
  induction 1 as [|st row next st' _ IH Hstep|st row next e st' _ IH Hstep].
  - split; constructor.
  - pose proof (process_row_metadata_step st row next) as H.
    rewrite Hstep in H. exact (mapping_ok_step st row st' IH H).
  - pose proof (process_row_metadata_step st row next) as H.
    rewrite Hstep in H. exact (mapping_ok_step st row st' IH H).
Qed.

(** X3: in every reachable state the "Table Name" of a record is the
    key the record is stored under. *)
Theorem X3_record_name_is_its_key (st : State) (t : string)
  (rec : TableMetadata) :
  reachable st -> Dict.get t (metadata st) = Some rec ->
  tm_table_name rec = t.
Proof.
  intros Hr Hget. destruct (reachable_mapping_ok st Hr) as [_ Hall].
  apply dict_get_In in Hget. rewrite Forall_forall in Hall.
  now destruct (Hall _ Hget) as (Hn & _).
Qed.

Lemma X3_record_name_is_its_key_witness :
  tm_table_name (mkTableMetadata "T" None None None []
                   [("label", mkFieldInfo "CHAR" "Display name" "")])
  = "T".
Proof.
  apply (X3_record_name_is_its_key (final_state [doc_twice]) "T").
  - apply reachable_final_state.
  - reflexivity.
Defined.

(** ** The three attribute rows of a table *)

(** X4: in a reachable state with a table name set, a 'Table Synonym',
    'Table Comments' or 'Module Name' row stores its column 3 as the
    synonym, description or module of the current record, replacing
    what was there, and changes nothing else: the other attributes and
    both field collections of the record, the other records, the order
    of the keys and the rest of the state stay as they were. *)
Theorem X4_attribute_row_sets_one_attribute (st : State) (row : Row)
  (next_row : option Row) (t : string) :
  reachable st -> table_name st = Some t ->
  classify row = TableSynonymRow \/ classify row = TableCommentsRow
  \/ classify row = ModuleNameRow ->
  exists rec st' rec',
    Dict.get t (metadata st) = Some rec
    /\ process_row st row next_row = Continue st'
    /\ Dict.get t (metadata st') = Some rec'
    /\ tm_table_synonym rec'
       = match classify row with
         | TableSynonymRow => Some (col3 row)
         | _ => tm_table_synonym rec
         end
    /\ tm_table_description rec'
       = match classify row with
         | TableCommentsRow => Some (col3 row)
         | _ => tm_table_description rec
         end
    /\ tm_module_name rec'
       = match classify row with
         | ModuleNameRow => Some (col3 row)
         | _ => tm_module_name rec
         end
    /\ tm_table_name rec' = tm_table_name rec
    /\ tm_key_fields rec' = tm_key_fields rec
    /\ tm_normal_fields rec' = tm_normal_fields rec
    /\ Dict.keys (metadata st') = Dict.keys (metadata st)
    /\ (forall t', t' <> t ->
          Dict.get t' (metadata st') = Dict.get t' (metadata st))
    /\ table_name st' = table_name st
    /\ in_key_field_section st' = in_key_field_section st
    /\ in_field_section st' = in_field_section st
    /\ results st' = results st
    /\ current_Key_Field_Fullname st' = current_Key_Field_Fullname st
    /\ current_Normal_Field_Fullname st' = current_Normal_Field_Fullname st.
Proof.
  intros Hr Ht Hc.
  destruct (reachable_record st t Hr Ht) as [rec Hrec].
  exists rec. unfold process_row.
  destruct Hc as [Hc | [Hc | Hc]]; rewrite Hc;
    rewrite (update_record_with_table st _ t rec Ht Hrec);
    eexists; eexists; (split; [exact Hrec|]); (split; [reflexivity|]);
    simpl; (split; [apply DictFacts.get_set_same|]);
    repeat (split; [reflexivity|]);
    (split; [apply (DictFacts.keys_set_present _ _ _ _ _ Hrec)|]);
    (split; [intros t' Ht'; apply DictFacts.get_set_other; congruence|]);
    repeat split.
Qed.

Lemma X4_attribute_row_sets_one_attribute_witness :
  exists rec st' rec',
    Dict.get "T" (metadata (state_after doc_account 1)) = Some rec
    /\ process_row (state_after doc_account 1)
         (mkRow "nan" "Module Name" "CORE" "nan" "nan") None = Continue st'
    /\ Dict.get "T" (metadata st') = Some rec'
    /\ tm_module_name rec' = Some "CORE"
    /\ tm_table_synonym rec' = tm_table_synonym rec.
Proof.
  destruct (X4_attribute_row_sets_one_attribute (state_after doc_account 1)
              (mkRow "nan" "Module Name" "CORE" "nan" "nan") None "T")
    as (rec & st' & rec' & H1 & H2 & H3 & H4 & H5 & H6 & _).
  - apply reachable_state_after.
  - reflexivity.
  - right. right. reflexivity.
  - exists rec, st', rec'. auto.
Defined.

(** ** Nothing is ever removed *)

Lemma results_step (st : State) (row : Row) (next_row : option Row) :
  match process_row st row next_row with
  | Continue st' | Raise _ st' =>
      results st'
      = results st ++ (if is_table_name_row row then [col3 row] else [])
  end.
Proof.
  pose proof (classify_table_name_row row) as Hiff.
  unfold process_row, update_record, process_field_row, create_field,
    update_record, append_description.
  destruct (classify row) eqn:Hc.
  - rewrite (proj1 Hiff eq_refl). reflexivity.
  - destruct (is_table_name_row row); [discriminate (proj2 Hiff eq_refl)|].
    destruct (lookup_table st) as [|[]]; simpl; now rewrite app_nil_r.
  - destruct (is_table_name_row row); [discriminate (proj2 Hiff eq_refl)|].
    destruct (lookup_table st) as [|[]]; simpl; now rewrite app_nil_r.
  - destruct (is_table_name_row row); [discriminate (proj2 Hiff eq_refl)|].
    destruct (lookup_table st) as [|[]]; simpl; now rewrite app_nil_r.
  - destruct (is_table_name_row row); [discriminate (proj2 Hiff eq_refl)|].
    simpl; now rewrite app_nil_r.
  - destruct (is_table_name_row row); [discriminate (proj2 Hiff eq_refl)|].
    simpl; now rewrite app_nil_r.
  - destruct (is_table_name_row row); [discriminate (proj2 Hiff eq_refl)|].
    rewrite app_nil_r.
    destruct (negb (truthy_opt (table_name st))); [reflexivity|].
    destruct (section_mode st) as [sec|]; [|reflexivity].
    assert (Hl : forall name,
               lookup_table (with_current_Fullname sec st name)
               = lookup_table st) by (now destruct sec).
    destruct (is_field_header row).
    + destruct (Nat.leb 19 (String.length (col2 row))).
      * destruct next_row as [nr|]; [|reflexivity].
        destruct (has_continuation nr); [|reflexivity].
        rewrite Hl. destruct (lookup_table st) as [|[]]; now destruct sec.
      * rewrite Hl. destruct (lookup_table st) as [|[]]; now destruct sec.
    + destruct (current_Fullname sec st) as [name|]; [|reflexivity].
      case_if; [|reflexivity].
      destruct (lookup_table st) as [|[t rec]]; [reflexivity|].
      now destruct (Dict.get name (fields_of sec rec)).
Qed.

Lemma keys_step (st : State) (row : Row) (st' : State) :
  metadata_step st row st' ->
  exists ks, Dict.keys (metadata st') = Dict.keys (metadata st) ++ ks.
Proof.
  intros [[-> _] | [[-> _] | H]].
  - exists []. now rewrite app_nil_r.
  - destruct (Dict.get (col3 row) (metadata st)) as [r|] eqn:E.
    + exists []. rewrite app_nil_r.
      apply (DictFacts.keys_set_present _ _ _ _ _ E).
    + eexists. apply (DictFacts.keys_set_absent _ _ _ _ E).
  - destruct H as (t & rec & rec' & _ & _ & Hget & -> & _).
    exists []. rewrite app_nil_r.
    apply (DictFacts.keys_set_present _ _ _ _ _ Hget).
Qed.

(** X5: whatever the state and the documents, processing only ever
    appends to the list of names and to the keys of the mapping: a
    table once recorded stays in the mapping, at its place. *)
Theorem X5_names_and_keys_only_grow (st : State) (files : list Document) :
  (exists names,
      results (process_files st files) = results st ++ names)
  /\ (exists ks,
         Dict.keys (metadata (process_files st files))
         = Dict.keys (metadata st) ++ ks)
  /\ (forall t rec,
         Dict.get t (metadata st) = Some rec ->
         exists rec', Dict.get t (metadata (process_files st files))
                      = Some rec').
Proof.
  set (Inv := fun s : State =>
                (exists names, results s = results st ++ names)
                /\ (exists ks, Dict.keys (metadata s)
                               = Dict.keys (metadata st) ++ ks)).
  assert (HInv : Inv (process_files st files)).
  { apply (process_files_invariant Inv (fun _ => True)).
    - intros s row next_row [[names Hn] [ks Hk]] _.
      pose proof (results_step s row next_row) as Hres.
      pose proof (process_row_metadata_step s row next_row) as Hmeta.
      destruct (process_row s row next_row) as [s'|e s'];
        (destruct (keys_step s row s' Hmeta) as [ks' Hk'];
         split;
         [ eexists; rewrite Hres, Hn, <- app_assoc; reflexivity
         | eexists; rewrite Hk', Hk, <- app_assoc; reflexivity ]).
    - split; exists []; now rewrite app_nil_r.
    - auto. }
  destruct HInv as [Hn [ks Hk]].
  split; [exact Hn|]. split; [now exists ks|].
  intros t rec Hget.
  destruct (Dict.get t (metadata (process_files st files))) as [rec'|] eqn:E;
    [eauto|].
  apply dict_get_none_iff in E. exfalso. apply E.
  rewrite Hk. apply in_or_app. left.
  apply dict_get_In in Hget. change t with (fst (t, rec)). now apply in_map.
Qed.

(** ** The indexed loop and the recursion on the rows agree *)

Lemma skipn_nth_error_some (A : Type) (l : list A) :
  forall i x, nth_error l i = Some x -> skipn i l = x :: skipn (S i) l.
Proof.
  induction l as [|a l IH]; intros [|i] x H; simpl in *; try discriminate.
  - now inversion H.
  - now apply IH.
Qed.

Lemma skipn_nth_error_none (A : Type) (l : list A) :
  forall i, nth_error l i = None -> skipn i l = [].
Proof.
  induction l as [|a l IH]; intros [|i] H; simpl in *;
    try discriminate; auto.
Qed.

Lemma hd_skipn_nth_error (A : Type) (l : list A) :
  forall i, match skipn i l with [] => None | r :: _ => Some r end
            = nth_error l i.
Proof.
  induction l as [|a l IH]; intros [|i]; simpl; auto.
Qed.

Lemma iterrows_run_rows (df : Document) (n : nat) :
  forall idx st,
    iterrows df st idx n
    = run_rows st (firstn n (skipn idx df)) (nth_error df (idx + n)).
Proof.
  induction n as [|n IH]; intros idx st; [reflexivity|].
  cbn [iterrows].
  destruct (nth_error df idx) as [row|] eqn:Hrow.
  - rewrite (skipn_nth_error_some _ df idx row Hrow).
    pose proof (hd_skipn_nth_error _ df (S idx)) as Hhd.
    pose proof (hd_skipn_nth_error _ df (idx + S n)) as Hfar.
    replace (idx + S n) with (n + S idx) in Hfar at 1 by lia.
    rewrite <- skipn_skipn in Hfar.
    assert (IH' : forall s,
               iterrows df s (idx + 1) n
               = run_rows s (firstn n (skipn (S idx) df))
                   (nth_error df (idx + S n))).
    { intros s. rewrite IH, Nat.add_1_r. do 2 f_equal. lia. }
    clear IH. rewrite Nat.add_1_r in *.
    remember (skipn (S idx) df) as rest eqn:E.
    cbn [firstn run_rows].
    assert (Hnext :
              match firstn n rest with
              | [] => nth_error df (idx + S n)
              | r :: _ => Some r
              end = nth_error df (S idx)).
    { rewrite <- Hhd. destruct n as [|n]; simpl.
      - now rewrite <- Hfar.
      - destruct rest as [|r rest']; [|reflexivity].
        now rewrite <- Hfar, skipn_nil. }
    rewrite Hnext.
    destruct (process_row st row (nth_error df (S idx))) as [st'|e st'];
      [|reflexivity].
    apply IH'.
  - now rewrite (skipn_nth_error_none _ df idx Hrow), firstn_nil.
Qed.

Lemma process_file_run_rows (st : State) (df : Document) :
  process_file st df = fst (run_rows st df None).
Proof.
  unfold process_file. rewrite iterrows_run_rows. simpl.
  rewrite firstn_all.
  now rewrite (proj2 (nth_error_None df (List.length df)) (Nat.le_refl _)).
Qed.

(** ** Runs that start with a table name *)

Lemma announced_names_app (a b : list Row) :
  announced_names (a ++ b) = announced_names a ++ announced_names b.
Proof.
  unfold announced_names. now rewrite filter_app, map_app.
Qed.

Lemma run_rows_with_table (rows : list Row) :
  forall st t after,
    reachable st -> table_name st = Some t ->
    exists st' t',
      run_rows st rows after = (st', None)
      /\ reachable st' /\ table_name st' = Some t'
      /\ results st' = results st ++ announced_names rows.
Proof.
  induction rows as [|row rest IH]; intros st t after Hr Ht.
  - exists st, t. simpl. now rewrite app_nil_r.
  - set (next := match rest with [] => after | r :: _ => Some r end).
    destruct (reachable_with_table_continues st row next t Hr Ht)
      as [st1 Hstep].
    assert (Hr1 : reachable st1) by (eapply reach_continue; eauto).
    assert (Ht1 : exists t1, table_name st1 = Some t1).
    { pose proof (process_row_metadata_step st row next) as H.
      rewrite Hstep in H.
      destruct H as [[_ E] | [(_ & E & _) | (t0 & _ & _ & _ & E & _)]];
        eauto. rewrite E. eauto. }
    destruct Ht1 as [t1 Ht1].
    destruct (IH st1 t1 after Hr1 Ht1) as (st' & t' & Hrun & Hr' & Ht' & Hres).
    exists st', t'. simpl. fold next. rewrite Hstep.
    repeat (split; [assumption|]).
    pose proof (results_step st row next) as H. rewrite Hstep in H.
    rewrite Hres, H, <- app_assoc. f_equal.
    unfold announced_names. simpl.
    now destruct (is_table_name_row row).
Qed.

Lemma process_files_with_table (files : list Document) :
  forall st t,
    reachable st -> table_name st = Some t ->
    results (process_files st files)
    = results st ++ announced_names (concat files).
Proof.
  induction files as [|df files IH]; intros st t Hr Ht; simpl.
  - now rewrite app_nil_r.
  - destruct (run_rows_with_table df st t None Hr Ht)
      as (st' & t' & Hrun & Hr' & Ht' & Hres).
    rewrite process_file_run_rows, Hrun. simpl.
    rewrite (IH st' t' Hr' Ht'), Hres, announced_names_app.
    now rewrite app_assoc.
Qed.

(** X6: when the first row of the first document is a 'Table Name'
    row, no row of the run raises, so the list of names is the column 3
    of every 'Table Name' row of every document, in order and with
    repetitions, and the keys of the returned mapping are those names
    in order of first occurrence. *)
Theorem X6_names_are_all_table_name_rows (row : Row) (df : Document)
  (files : list Document) :
  is_table_name_row row = true ->
  results (final_state ((row :: df) :: files))
  = announced_names (concat ((row :: df) :: files))
  /\ extract_table_details_from_markdown ((row :: df) :: files)
     = ReturnedMetadata (metadata (final_state ((row :: df) :: files)))
  /\ Dict.keys (metadata (final_state ((row :: df) :: files)))
     = dedup (announced_names (concat ((row :: df) :: files))).
Proof.
  intros Hrow.
  assert (Hres : results (final_state ((row :: df) :: files))
                 = announced_names (concat ((row :: df) :: files))).
  { change (concat ((row :: df) :: files))
      with ((row :: df) ++ concat files).
    rewrite announced_names_app.
    unfold final_state.
    change (process_files initial_state ((row :: df) :: files))
      with (process_files (process_file initial_state (row :: df)) files).
    rewrite process_file_run_rows. cbn [run_rows].
    set (next := match df with [] => None | r :: _ => Some r end).
    assert (Hstep : exists st1,
               process_row initial_state row next = Continue st1
               /\ table_name st1 = Some (col3 row)
               /\ results st1 = [col3 row]).
    { unfold process_row.
      rewrite (proj2 (classify_table_name_row row) Hrow). eauto. }
    destruct Hstep as (st1 & Hstep & Ht1 & Hres1). rewrite Hstep.
    assert (Hr1 : reachable st1)
      by (eapply reach_continue; [constructor | exact Hstep]).
    destruct (run_rows_with_table df st1 (col3 row) None Hr1 Ht1)
      as (st' & t' & Hrun & Hr' & Ht' & Hres').
    rewrite Hrun. simpl.
    rewrite (process_files_with_table files st' t' Hr' Ht'), Hres', Hres1.
    f_equal. unfold announced_names. simpl. now rewrite Hrow. }
  split; [exact Hres|]. split; [reflexivity|].
  rewrite <- Hres. apply wf_keys, reachable_wf, reachable_final_state.
Qed.

Lemma X6_names_are_all_table_name_rows_witness :
  results (final_state [doc_twice; doc_account]) = ["T"; "T"; "T"]
  /\ Dict.keys (metadata (final_state [doc_twice; doc_account])) = ["T"].
Proof.
  destruct (X6_names_are_all_table_name_rows (row_table "T")
              (tl doc_twice) [doc_account] eq_refl) as (H1 & _ & H3).
  split; [exact H1 | exact H3].
Defined.

(** ** Between two table names *)

(** X7: as long as no 'Table Name' row is met, the current table stays
    the same and no record but the one of the current table changes,
    whatever the state the rows are met in. *)
Theorem X7_only_the_current_record_changes (st : State)
  (files : list Document) :
  (forall df row, In df files -> In row df -> is_table_name_row row = false) ->
  table_name (process_files st files) = table_name st
  /\ forall t',
       table_name st <> Some t' ->
       Dict.get t' (metadata (process_files st files))
       = Dict.get t' (metadata st).
Proof.
  intros Hrows.
  set (Inv := fun s : State =>
                table_name s = table_name st
                /\ forall t', table_name st <> Some t' ->
                              Dict.get t' (metadata s)
                              = Dict.get t' (metadata st)).
  apply (process_files_invariant Inv
           (fun row => is_table_name_row row = false)).
  - intros s row next_row [Ht Hget] Hrow.
    pose proof (process_row_metadata_step s row next_row) as H.
    assert (Hstep : forall s', metadata_step s row s' -> Inv s').
    { intros s' [[Hm Ht'] | [(_ & _ & Hc) | Hrep]].
      - split; [congruence|]. intros t' Hne. rewrite Hm. now apply Hget.
      - apply classify_table_name_row in Hc. congruence.
      - destruct Hrep as (t & rec & rec' & Hs & Hs' & _ & Hm & _).
        split; [congruence|]. intros t' Hne.
        rewrite Hm, DictFacts.get_set_other; [now apply Hget | congruence]. }
    destruct (process_row s row next_row); now apply Hstep.
  - split; auto.
  - exact Hrows.
Qed.

Lemma X7_only_the_current_record_changes_witness :
  table_name (process_files (final_state [doc_twice]) [tl doc_account])
  = table_name (final_state [doc_twice])
  /\ forall t',
       table_name (final_state [doc_twice]) <> Some t' ->
       Dict.get t' (metadata (process_files (final_state [doc_twice])
                                [tl doc_account]))
       = Dict.get t' (metadata (final_state [doc_twice])).
Proof.
  apply (X7_only_the_current_record_changes (final_state [doc_twice])
           [tl doc_account]).
  intros df row [<- | []] Hrow. simpl in Hrow.
  repeat (destruct Hrow as [<- | Hrow]; [reflexivity|]). destruct Hrow.
Defined.

(** ** Long field names without a continuation *)

Lemma long_header_without_continuation (st : State) (row : Row)
  (next_row : option Row) :
  classify row = DataRow -> is_long_header row = true ->
  next_row = None
  \/ (exists nr, next_row = Some nr /\ (col1 nr = "nan" \/ col2 nr = "nan")) ->
  process_row st row next_row = Continue st.
Proof.
  intros Hc Hlong Hnext. unfold is_long_header in Hlong.
  apply andb_true_iff in Hlong. destruct Hlong as [Hh Hlen].
  unfold process_row. rewrite Hc.
  destruct (negb (truthy_opt (table_name st))); [reflexivity|].
  destruct (section_mode st) as [sec|]; [|reflexivity].
  unfold process_field_row. rewrite Hh, Hlen.
  destruct Hnext as [-> | (nr & -> & Hnr)]; [reflexivity|].
  assert (Hcont : has_continuation nr = false).
  { unfold has_continuation. destruct Hnr as [-> | ->]; simpl;
      now rewrite ?andb_false_r. }
  now rewrite Hcont.
Qed.

Lemma run_rows_app (a b : list Row) :
  forall st after,
    run_rows st (a ++ b) after
    = match run_rows st a (match b with [] => after | r :: _ => Some r end)
      with
      | (s, None) => run_rows s b after
      | (s, Some e) => (s, Some e)
      end.
Proof.
  induction a as [|row rest IH]; intros st after; simpl; [reflexivity|].
  assert (Hnext : match rest ++ b with [] => after | r :: _ => Some r end
                  = match rest with
                    | [] => match b with [] => after | r :: _ => Some r end
                    | r :: _ => Some r
                    end) by (now destruct rest).
  rewrite Hnext.
  match goal with |- context [process_row st row ?n] =>
    destruct (process_row st row n) as [st'|e st'] end;
    [apply IH | reflexivity].
Qed.

(** X8: a field header whose name has 19 characters or more stores
    nothing and changes nothing when no row follows it in its document
    or when the row that follows has ["nan"] in column 1 or column 2
    (for instance the next field header); in particular a document
    ending with such a row is processed as if the row were not there. *)
Theorem X8_long_name_without_continuation_is_lost (row : Row) :
  classify row = DataRow -> is_long_header row = true ->
  (forall st next_row,
      next_row = None
      \/ (exists nr, next_row = Some nr
                     /\ (col1 nr = "nan" \/ col2 nr = "nan")) ->
      process_row st row next_row = Continue st)
  /\ (forall st df,
         process_file st (df ++ [row])
         = fst (iterrows (df ++ [row]) st 0 (List.length df))).
Proof.
  intros Hc Hlong. split.
  - intros st next_row. now apply long_header_without_continuation.
  - intros st df.
    rewrite process_file_run_rows, run_rows_app, iterrows_run_rows.
    simpl skipn. rewrite firstn_app, firstn_all, Nat.sub_diag. simpl firstn.
    rewrite app_nil_r, nth_error_app2, Nat.sub_diag by lia. simpl nth_error.
    destruct (run_rows st df (Some row)) as [s [e|]]; [reflexivity|].
    simpl. now rewrite (long_header_without_continuation s row None Hc Hlong)
      by (now left).
Qed.

Lemma X8_long_name_without_continuation_is_lost_witness :
  process_row (state_after doc_account 2)
    (mkRow "nan" "CUSTOMER_RELATIONSHIP_ID" "NUMBER" "Relationship" "nan")
    (Some (mkRow "nan" "id" "NUMBER" "Identifier" "nan"))
  = Continue (state_after doc_account 2).
Proof.
  apply (X8_long_name_without_continuation_is_lost
           (mkRow "nan" "CUSTOMER_RELATIONSHIP_ID" "NUMBER" "Relationship"
              "nan")).
  - reflexivity.
  - reflexivity.
  - right. eexists. split; [reflexivity|]. now left.
Defined.

(** ** Tables that run over a document boundary *)

Lemma process_row_next_irrelevant (st : State) (row : Row)
  (n1 n2 : option Row) :
  is_long_header row = false ->
  process_row st row n1 = process_row st row n2.
Proof.
  intros Hlong. unfold process_row, process_field_row.
  unfold is_long_header in Hlong.
  destruct (is_field_header row); [|reflexivity].
  rewrite andb_true_l in Hlong. now rewrite Hlong.
Qed.

Lemma run_rows_after_irrelevant (rows : list Row) :
  forall st a1 a2,
    (forall pre row, rows = pre ++ [row] -> is_long_header row = false) ->
    run_rows st rows a1 = run_rows st rows a2.
Proof.
  induction rows as [|row rest IH]; intros st a1 a2 Hlast; [reflexivity|].
  simpl. destruct rest as [|r rest'].
  - rewrite (process_row_next_irrelevant st row a1 a2); [reflexivity|].
    now apply (Hlast []).
  - destruct (process_row st row (Some r)) as [st'|e st']; [|reflexivity].
    apply IH. intros pre row' E. apply (Hlast (row :: pre)).
    now rewrite E.
Qed.

(** X9: in a reachable state with a table name set, cutting a document
    in two changes nothing, provided the row before the cut is not a
    field header with a name of 19 characters or more: the two parts
    processed one after the other give the state the whole document
    gives, so a table's fields may run over a document boundary. *)
Theorem X9_document_boundary_is_transparent (st : State) (t : string)
  (d1 d2 : Document) :
  reachable st -> table_name st = Some t ->
  (forall pre row, d1 = pre ++ [row] -> is_long_header row = false) ->
  process_files st [d1; d2] = process_file st (d1 ++ d2).
Proof.
  intros Hr Ht Hlast.
  change (process_files st [d1; d2])
    with (process_file (process_file st d1) d2).
  rewrite !process_file_run_rows, run_rows_app.
  rewrite (run_rows_after_irrelevant d1 st
             (match d2 with [] => None | r :: _ => Some r end) None Hlast).
  destruct (run_rows_with_table d1 st t None Hr Ht) as (s & _ & Hrun & _).
  now rewrite Hrun.
Qed.

Lemma X9_document_boundary_is_transparent_witness :
  process_files (state_after doc_account 1)
    [firstn 4 (tl doc_account); skipn 4 (tl doc_account)]
  = process_file (state_after doc_account 1)
      (firstn 4 (tl doc_account) ++ skipn 4 (tl doc_account)).
Proof.
  apply (X9_document_boundary_is_transparent (state_after doc_account 1) "T").
  - apply reachable_state_after.
  - reflexivity.
  - intros pre row E.
    assert (H : row = row_field_section).
    { apply (f_equal (@rev Row)) in E. rewrite rev_app_distr in E.
      simpl in E. now inversion E. }
    now subst row.
Defined.

(** ** A field name declared again *)

(** X10: a field header whose name (shorter than 19 characters) is
    already an entry of the open collection replaces that entry in
    place: the entry keeps its position, and its type, description and
    foreign key become those of the new row, whatever had been stored
    or appended before. *)
Theorem X10_redeclared_field_is_overwritten (st : State) (sec : section)
  (row : Row) (next_row : option Row) (t : string) (rec : TableMetadata)
  (old : FieldInfo) :
  reachable st ->
  table_name st = Some t -> t <> "" ->
  section_mode st = Some sec ->
  classify row = DataRow ->
  is_field_header row = true ->
  String.length (col2 row) < 19 ->
  Dict.get t (metadata st) = Some rec ->
  Dict.get (col2 row) (fields_of sec rec) = Some old ->
  exists st' rec',
    process_row st row next_row = Continue st'
    /\ Dict.get t (metadata st') = Some rec'
    /\ Dict.keys (fields_of sec rec') = Dict.keys (fields_of sec rec)
    /\ Dict.get (col2 row) (fields_of sec rec')
       = Some (mkFieldInfo (col3 row) (col4 row)
                 (if String.eqb (col5 row) "nan" then "" else col5 row))
    /\ (forall name, name <> col2 row ->
          Dict.get name (fields_of sec rec')
          = Dict.get name (fields_of sec rec))
    /\ current_Fullname sec st' = Some (col2 row).
Proof.
  intros Hr Ht Hne Hmode Hc Hh Hlen Hrec Hold.
  destruct (header_row_creates st sec row next_row t (col2 row)
              Hr Ht Hne Hmode Hc Hh) as (rec0 & Hrec0 & Hstep);
    [left; auto|].
  assert (rec0 = rec) as -> by congruence.
  rewrite Hstep. eexists. eexists. split; [reflexivity|]. simpl.
  split; [apply DictFacts.get_set_same|].
  rewrite fields_of_with_fields.
  split; [apply (DictFacts.keys_set_present _ _ _ _ _ Hold)|].
  split; [apply DictFacts.get_set_same|].
  split; [intros name Hn; apply DictFacts.get_set_other; congruence|].
  now destruct sec.
Qed.

Lemma X10_redeclared_field_is_overwritten_witness :
  exists st' rec',
    process_row (state_after doc_account 7)
      (mkRow "nan" "status" "NUMBER" "Code" "nan") None = Continue st'
    /\ Dict.get "T" (metadata st') = Some rec'
    /\ Dict.get "status" (tm_normal_fields rec')
       = Some (mkFieldInfo "NUMBER" "Code" "").
Proof.
  destruct (X10_redeclared_field_is_overwritten (state_after doc_account 7)
              NormalFields (mkRow "nan" "status" "NUMBER" "Code" "nan")
              None "T"
              (mkTableMetadata "T" None None None
                 [("ACCOUNT_OPEN_DATE_TIMESTAMP",
                   mkFieldInfo "DATE" "Opening" "")]
                 [("status",
                   mkFieldInfo "CHAR" "Current value of account."
                     "STATUS_REF")])
              (mkFieldInfo "CHAR" "Current value of account." "STATUS_REF"))
    as (st' & rec' & H1 & H2 & _ & H4 & _).
  - apply reachable_state_after.
  - reflexivity.
  - discriminate.
  - reflexivity.
  - reflexivity.
  - reflexivity.
  - simpl. lia.
  - reflexivity.
  - reflexivity.
  - exists st', rec'. auto.
Defined.

(** * [custom_clean_text] *)

(** ** [replace], one step at a time *)

Lemma prefix_cons (a c : ascii) (w t : string) :
  String.prefix (String a w) (String c t)
  = Ascii.eqb a c && String.prefix w t.
Proof.
  simpl. destruct (ascii_dec a c) as [->|Hne].
  - now rewrite Ascii.eqb_refl.
  - apply Ascii.eqb_neq in Hne. now rewrite Hne.
Qed.

Lemma prefix_empty (s : string) : String.prefix "" s = true.
Proof. now destruct s. Qed.

Lemma prefix_length (p s : string) :
  String.prefix p s = true -> String.length p <= String.length s.
Proof.
  revert p. induction s as [|c s IH]; intros [|a p]; simpl; try lia;
    try discriminate.
  destruct (ascii_dec a c); [|discriminate].
  intros H. apply IH in H. lia.
Qed.

Lemma drop_length (n : nat) (s : string) :
  String.length (drop n s) = String.length s - n.
Proof.
  revert s. induction n as [|n IH]; intros [|c s]; simpl; auto.
Qed.

Lemma replace_from_skip (old new : string) (s : string) :
  forall k, replace_from old new k s = replace_from old new 0 (drop k s).
Proof.
  induction s as [|c s IH]; intros [|k]; try reflexivity.
  simpl replace_from at 1. simpl drop. apply IH.
Qed.

Lemma replace_from_match (old new : string) (c : ascii) (s : string) :
  String.prefix old (String c s) = true ->
  replace_from old new 0 (String c s)
  = (new ++ replace_from old new 0 (drop (String.length old - 1) s))%string.
Proof.
  intros H. cbn [replace_from]. rewrite H. now rewrite replace_from_skip.
Qed.

Lemma replace_from_copy (old new : string) (c : ascii) (s : string) :
  String.prefix old (String c s) = false ->
  replace_from old new 0 (String c s) = String c (replace_from old new 0 s).
Proof.
  intros H. cbn [replace_from]. now rewrite H.
Qed.

Lemma str_in_cons (p : string) (c : ascii) (s : string) :
  str_in p (String c s) = String.prefix p (String c s) || str_in p s.
Proof.
  cbn [str_in]. now destruct (String.prefix p (String c s)).
Qed.

(** ** Text without the pattern *)

Lemma replace_from_absent (old new s : string) :
  str_in old s = false -> replace_from old new 0 s = s.
Proof.
  induction s as [|c s IH]; [reflexivity|].
  rewrite str_in_cons. intros H. apply orb_false_iff in H.
  destruct H as [Hp Hs].
  rewrite (replace_from_copy old new c s Hp). now rewrite IH.
Qed.

Lemma replace_absent (old new s : string) :
  old <> "" -> str_in old s = false -> replace old new s = s.
Proof.
  intros Hne H. unfold replace. destruct old; [congruence|].
  now apply replace_from_absent.
Qed.

Lemma clean_text_without_typo (s : string) :
  has_typo s = false -> custom_clean_text (Some s) = Some s.
Proof.
  unfold has_typo. intros H.
  apply orb_false_iff in H. destruct H as [H H3].
  apply orb_false_iff in H. destruct H as [H1 H2].
  unfold custom_clean_text.
  destruct (negb (truthy s) || String.eqb s "nan"); [reflexivity|].
  unfold fix_typos.
  rewrite (replace_absent "start_daite" "start_date" s) by (discriminate || exact H1).
  rewrite (replace_absent "Daite" "Date" s) by (discriminate || exact H2).
  now rewrite (replace_absent "DAITE" "DATE" s) by (discriminate || exact H3).
Qed.


(** X11: a text in which none of ["start_daite"], ["Daite"] and
    ["DAITE"] occurs is returned as it is; this covers the empty text
    and ["nan"], which the function returns before any replacement. *)
Theorem X11_clean_text_without_typo_is_unchanged (s : string) :
  has_typo s = false -> custom_clean_text (Some s) = Some s.
Proof.
  apply clean_text_without_typo.
Qed.

Lemma X11_clean_text_without_typo_is_unchanged_witness :
  custom_clean_text (Some "Account open Date") = Some "Account open Date".
Proof.
  apply X11_clean_text_without_typo_is_unchanged. reflexivity.
Defined.

(** ** No occurrence is left, none is brought about *)

Section Replace.
Variables (f : ascii) (o n : string).
Let old := String f o.
Let new := String f n.
Let R := replace_from old new 0.

(** A word without [f] starts the output exactly where it starts the
    input: the output copies the input up to the first [f]. *)
Lemma prefix_replace_from (s : string) :
  forall w, char_in f w = false ->
            String.prefix w (R s) = String.prefix w s.
Proof.
  induction s as [|c s IH]; intros [|b w] Hw;
    try (now rewrite !prefix_empty); try reflexivity.
  simpl in Hw. apply orb_false_iff in Hw. destruct Hw as [Hfb Hw].
  destruct (String.prefix old (String c s)) eqn:Hm.
  - unfold R. rewrite (replace_from_match old new c s Hm).
    unfold old in Hm. rewrite prefix_cons in Hm.
    apply andb_true_iff in Hm. destruct Hm as [Hfc _].
    apply Ascii.eqb_eq in Hfc. subst c.
    unfold new. cbn [String.append]. rewrite !prefix_cons.
    rewrite Ascii.eqb_sym in Hfb. now rewrite Hfb.
  - unfold R. rewrite (replace_from_copy old new c s Hm).
    rewrite !prefix_cons. fold R. now rewrite IH.
Qed.

Variables (a : ascii) (w : string).
Let p := String a w.
Hypothesis w_free : char_in f w = false.
Hypothesis a_fresh : char_in a n = false.
Hypothesis start_clash : Ascii.eqb a f = false \/ clash p new = true.

Lemma clash_prefix (u v t : string) :
  clash v u = true -> String.prefix v (u ++ t) = false.
Proof.
  revert v. induction u as [|b u IH]; intros [|c v]; simpl;
    try discriminate.
  destruct (ascii_dec c b) as [->|Hne].
  - rewrite Ascii.eqb_refl. apply IH.
  - reflexivity.
Qed.

Lemma str_in_after_fresh (u t : string) :
  char_in a u = false -> str_in p t = false -> str_in p (u ++ t) = false.
Proof.
  induction u as [|b u IH]; intros Hu Ht; [exact Ht|].
  simpl in Hu. apply orb_false_iff in Hu. destruct Hu as [Hab Hu].
  cbn [String.append]. rewrite str_in_cons. unfold p at 1.
  rewrite prefix_cons, Hab. simpl. now apply IH.
Qed.

Lemma str_in_after_new (t : string) :
  str_in p t = false -> str_in p (new ++ t) = false.
Proof.
  intros Ht. unfold new. cbn [String.append]. rewrite str_in_cons.
  rewrite (str_in_after_fresh n t a_fresh Ht), orb_false_r.
  destruct start_clash as [Hne | Hcl].
  - unfold p. rewrite prefix_cons. now rewrite Hne.
  - exact (clash_prefix new p t Hcl).
Qed.

Lemma safe_cons (c : ascii) (s : string) :
  safe old p (String c s) = true ->
  (String.prefix old (String c s) = false ->
   String.prefix p (String c s) = false)
  /\ safe old p s = true.
Proof.
  cbn [safe]. intros H. apply andb_true_iff in H. destruct H as [H Hs].
  split; [|exact Hs].
  intros Hm. rewrite Hm in H. simpl in H. now apply negb_true_iff in H.
Qed.

Lemma safe_drop (k : nat) :
  forall s, safe old p s = true -> safe old p (drop k s) = true.
Proof.
  induction k as [|k IH]; intros [|c s] H; simpl; auto.
  apply IH. now apply safe_cons in H.
Qed.

Lemma str_in_replace_from (m : nat) :
  forall s, String.length s <= m -> safe old p s = true ->
            str_in p (R s) = false.
Proof.
  induction m as [|m IH]; intros [|c s] Hlen Hsafe; try reflexivity.
  - simpl in Hlen. lia.
  - simpl in Hlen. destruct (safe_cons c s Hsafe) as [Hcopy Hs].
    destruct (String.prefix old (String c s)) eqn:Hm.
    + unfold R. rewrite (replace_from_match old new c s Hm).
      apply str_in_after_new. apply IH.
      * rewrite drop_length. lia.
      * now apply safe_drop.
    + unfold R. rewrite (replace_from_copy old new c s Hm).
      rewrite str_in_cons. fold R.
      rewrite (IH s) by (lia || exact Hs). rewrite orb_false_r.
      specialize (Hcopy eq_refl). unfold p in *.
      rewrite prefix_cons in *. now rewrite prefix_replace_from.
Qed.
End Replace.

Lemma safe_of_absent (old p s : string) :
  str_in p s = false -> safe old p s = true.
Proof.
  induction s as [|c s IH].
  - destruct p as [|a p]; [discriminate|].
    intros _. cbn [safe]. now rewrite orb_true_r.
  - rewrite str_in_cons. intros H. apply orb_false_iff in H.
    destruct H as [Hp Hs]. cbn [safe]. rewrite Hp, (IH Hs).
    now rewrite orb_true_r.
Qed.

Lemma safe_self (old s : string) : safe old old s = true.
Proof.
  induction s as [|c s IH]; cbn [safe].
  - now destruct (String.prefix old "").
  - rewrite IH. now destruct (String.prefix old (String c s)).
Qed.

(** [replace old new] does not bring about an occurrence of [p]. *)
Lemma replace_keeps_absent (old new p s : string) :
  no_new_occurrence old new p = true ->
  str_in p s = false -> str_in p (replace old new s) = false.
Proof.
  unfold no_new_occurrence.
  destruct old as [|f o]; [discriminate|].
  destruct new as [|f' n]; [discriminate|].
  destruct p as [|a w]; [discriminate|].
  intros H Hs.
  apply andb_true_iff in H. destruct H as [H Hclash].
  apply andb_true_iff in H. destruct H as [H Ha].
  apply andb_true_iff in H. destruct H as [Hf Hw].
  apply Ascii.eqb_eq in Hf. subst f'.
  apply negb_true_iff in Hw, Ha.
  unfold replace.
  apply (str_in_replace_from f o n a w Hw Ha) with (m := String.length s).
  - apply orb_true_iff in Hclash. destruct Hclash as [H | H]; [left|now right].
    now apply negb_true_iff in H.
  - lia.
  - now apply safe_of_absent.
Qed.

(** [replace old new] leaves no occurrence of [old]. *)
Lemma replace_removes (old new s : string) :
  no_new_occurrence old new old = true ->
  str_in old (replace old new s) = false.
Proof.
  unfold no_new_occurrence.
  destruct old as [|f o]; [discriminate|].
  destruct new as [|f' n]; [discriminate|].
  intros H.
  apply andb_true_iff in H. destruct H as [H Hclash].
  apply andb_true_iff in H. destruct H as [H Ha].
  apply andb_true_iff in H. destruct H as [Hf Hw].
  apply Ascii.eqb_eq in Hf. subst f'.
  apply negb_true_iff in Hw, Ha.
  unfold replace.
  apply (str_in_replace_from f o n f o Hw Ha) with (m := String.length s).
  - apply orb_true_iff in Hclash. destruct Hclash as [H | H]; [left|now right].
    now apply negb_true_iff in H.
  - lia.
  - apply safe_self.
Qed.

Lemma fix_typos_has_no_typo (s : string) : has_typo (fix_typos s) = false.
Proof.
  unfold has_typo, fix_typos.
  set (s1 := replace "start_daite" "start_date" s).
  set (s2 := replace "Daite" "Date" s1).
  assert (H1 : str_in "start_daite" s1 = false)
    by (now apply replace_removes).
  assert (H2 : str_in "Daite" s2 = false)
    by (now apply replace_removes).
  assert (H12 : str_in "start_daite" s2 = false)
    by (now apply replace_keeps_absent).
  rewrite (replace_keeps_absent "DAITE" "DATE" "start_daite" s2 eq_refl H12).
  rewrite (replace_keeps_absent "DAITE" "DATE" "Daite" s2 eq_refl H2).
  now rewrite (replace_removes "DAITE" "DATE" s2 eq_refl).
Qed.

Lemma clean_text_has_no_typo (s r : string) :
  custom_clean_text (Some s) = Some r -> has_typo r = false.
Proof.
  unfold custom_clean_text.
  destruct (negb (truthy s) || String.eqb s "nan") eqn:E; intros H;
    inversion H; subst r.
  - apply orb_true_iff in E. destruct E as [E | E].
    + apply negb_true_iff in E. unfold truthy in E.
      apply negb_false_iff, String.eqb_eq in E. now subst s.
    + apply String.eqb_eq in E. now subst s.
  - apply fix_typos_has_no_typo.
Qed.

(** X12: whatever the text, none of ["start_daite"], ["Daite"] and
    ["DAITE"] occurs in what [custom_clean_text] returns: each
    replacement removes every occurrence of its own misspelling and
    brings back none of the others. *)
Theorem X12_clean_text_has_no_typo (s r : string) :
  custom_clean_text (Some s) = Some r -> has_typo r = false.
Proof.
  apply clean_text_has_no_typo.
Qed.

Lemma X12_clean_text_has_no_typo_witness :
  has_typo "start_date on Date of DATE" = false.
Proof.
  apply (X12_clean_text_has_no_typo "start_daite on Daite of DAITE").
  reflexivity.
Defined.

(** X13: cleaning a cleaned text changes nothing. *)
Theorem X13_clean_text_is_idempotent (text : option string) :
  custom_clean_text (custom_clean_text text) = custom_clean_text text.
Proof.
  destruct text as [s|]; [|reflexivity].
  destruct (custom_clean_text (Some s)) as [r|] eqn:E.
  - apply clean_text_without_typo.
    exact (clean_text_has_no_typo s r E).
  - reflexivity.
Qed.

(** ** The cleaned text is never longer *)

Lemma string_length_app (u t : string) :
  String.length (u ++ t) = String.length u + String.length t.
Proof.
  induction u as [|c u IH]; simpl; [reflexivity | now rewrite IH].
Qed.

Lemma replace_from_length (old new : string) (m : nat) :
  String.length new <= String.length old ->
  forall s, String.length s <= m ->
            String.length (replace_from old new 0 s) <= String.length s.
Proof.
  intros Hnew. induction m as [|m IH]; intros [|c s] Hlen; simpl in Hlen;
    try (simpl; lia).
  destruct (String.prefix old (String c s)) eqn:Hm.
  - rewrite (replace_from_match old new c s Hm), string_length_app.
    apply prefix_length in Hm. simpl in Hm.
    assert (H : String.length
                  (replace_from old new 0 (drop (String.length old - 1) s))
                <= String.length (drop (String.length old - 1) s))
      by (apply IH; rewrite drop_length; lia).
    rewrite drop_length in H. simpl. lia.
  - rewrite (replace_from_copy old new c s Hm). simpl.
    specialize (IH s). lia.
Qed.

Lemma replace_length (old new s : string) :
  old <> "" -> String.length new <= String.length old ->
  String.length (replace old new s) <= String.length s.
Proof.
  intros Hne Hnew. unfold replace. destruct old as [|f o]; [congruence|].
  now apply (replace_from_length (String f o) new (String.length s)).
Qed.

(** X14: the text [custom_clean_text] returns is never longer than the
    text it is given: every replacement puts a shorter word in place of
    the misspelt one. *)
Theorem X14_clean_text_is_not_longer (s r : string) :
  custom_clean_text (Some s) = Some r ->
  String.length r <= String.length s.
Proof.
  unfold custom_clean_text.
  destruct (negb (truthy s) || String.eqb s "nan"); intros H;
    inversion H; subst r; [lia|].
  unfold fix_typos.
  pose proof (replace_length "start_daite" "start_date" s) as H1.
  pose proof (replace_length "Daite" "Date"
                (replace "start_daite" "start_date" s)) as H2.
  pose proof (replace_length "DAITE" "DATE"
                (replace "Daite" "Date"
                   (replace "start_daite" "start_date" s))) as H3.
  assert (H1' := H1 ltac:(discriminate) ltac:(simpl; lia)).
  assert (H2' := H2 ltac:(discriminate) ltac:(simpl; lia)).
  assert (H3' := H3 ltac:(discriminate) ltac:(simpl; lia)).
  lia.
Qed.

Lemma X14_clean_text_is_not_longer_witness :
  String.length "start_date" <= String.length "start_daite".
Proof.
  apply (X14_clean_text_is_not_longer "start_daite" "start_date").
  reflexivity.
Defined.

(** * The separator-line filter *)

(** ** Matching by derivatives decides membership *)

Lemma append_empty_inv (u t : string) :
  (u ++ t)%string = "" -> u = "" /\ t = "".
Proof. destruct u; simpl; [auto | discriminate]. Qed.

Lemma append_cons_inv (u t : string) (c : ascii) (s : string) :
  (u ++ t)%string = String c s ->
  (u = "" /\ t = String c s)
  \/ exists u', u = String c u' /\ s = (u' ++ t)%string.
Proof.
  destruct u as [|b u]; simpl; intros H; [now left|].
  inversion H; subst. right. now exists u.
Qed.

Lemma nullable_spec (r : regex) : nullable r = true <-> in_lang r "".
Proof.
  split.
  - induction r; simpl; intros H; try discriminate.
    + constructor.
    + apply andb_true_iff in H. destruct H as [H1 H2].
      change "" with ("" ++ "")%string. constructor; auto.
    + apply orb_true_iff in H. destruct H as [H | H];
        [apply in_alt_l | apply in_alt_r]; auto.
    + constructor.
  - intros H. remember "" as s eqn:Es.
    induction H; simpl; try discriminate; auto.
    + apply append_empty_inv in Es. destruct Es as [-> ->].
      now rewrite IHin_lang1, IHin_lang2.
    + now rewrite IHin_lang.
    + rewrite IHin_lang by assumption. apply orb_true_r.
Qed.

(** A non-empty match of a star starts with a non-empty match of its
    body. *)
Lemma star_cons_inv (r : regex) (c : ascii) (s : string) :
  in_lang (Star r) (String c s) ->
  exists s1 s2, s = (s1 ++ s2)%string
                /\ in_lang r (String c s1) /\ in_lang (Star r) s2.
Proof.
  intros H. remember (Star r) as r' eqn:Er.
  remember (String c s) as t eqn:Et.
  induction H; try discriminate.
  inversion Er; subst r0.
  destruct (append_cons_inv s1 s2 c s Et) as [[-> E] | (u & -> & ->)].
  - now apply IHin_lang2.
  - exists u, s2. auto.
Qed.

Lemma deriv_spec (r : regex) :
  forall c s, in_lang (deriv c r) s <-> in_lang r (String c s).
Proof.
  induction r as [| |cls|r1 IH1 r2 IH2|r1 IH1 r2 IH2|r IH]; intros c s; simpl.
  - split; intros H; inversion H.
  - split; intros H; inversion H.
  - destruct (cls c) eqn:E; split; intros H; inversion H; subst.
    + now constructor.
    + constructor.
    + congruence.
  - split.
    + intros H.
      assert (Hcat : in_lang (Cat (deriv c r1) r2) s ->
                     in_lang (Cat r1 r2) (String c s)).
      { intros Hc. inversion Hc; subst.
        change (String c (s1 ++ s2)) with (String c s1 ++ s2)%string.
        constructor; [now apply IH1 | assumption]. }
      destruct (nullable r1) eqn:N; [|now apply Hcat].
      inversion H; subst; [now apply Hcat|].
      change (String c s) with ("" ++ String c s)%string.
      constructor; [now apply nullable_spec | now apply IH2].
    + intros H. remember (Cat r1 r2) as r' eqn:Er.
      remember (String c s) as t eqn:Et.
      destruct H as [| |q1 q2 s1 s2 H1 H2| | | |]; try discriminate.
      inversion Er; subst q1 q2.
      destruct (append_cons_inv s1 s2 c s Et) as [[-> ->] | (u & -> & ->)].
      * apply nullable_spec in H1. rewrite H1.
        apply in_alt_r. now apply IH2.
      * assert (Hc : in_lang (Cat (deriv c r1) r2) (u ++ s2))
          by (constructor; [now apply IH1 | assumption]).
        destruct (nullable r1); [now apply in_alt_l | exact Hc].
  - split; intros H; inversion H; subst.
    + apply in_alt_l. now apply IH1.
    + apply in_alt_r. now apply IH2.
    + apply in_alt_l. now apply IH1.
    + apply in_alt_r. now apply IH2.
  - split.
    + intros H. inversion H; subst.
      change (String c (s1 ++ s2)) with (String c s1 ++ s2)%string.
      constructor; [now apply IH | assumption].
    + intros H. destruct (star_cons_inv r c s H) as (s1 & s2 & -> & H1 & H2).
      constructor; [now apply IH | assumption].
Qed.

Theorem matches_spec (s : string) :
  forall r, matches r s = true <-> in_lang r s.
Proof.
  induction s as [|c s IH]; intros r; simpl.
  - apply nullable_spec.
  - rewrite IH. apply deriv_spec.
Qed.

(** ** Alphabets *)

Lemma all_chars_app (S : ascii -> bool) (u t : string) :
  all_chars S (u ++ t) = all_chars S u && all_chars S t.
Proof.
  induction u as [|c u IH]; simpl; [reflexivity|].
  now rewrite IH, andb_assoc.
Qed.

Lemma in_lang_within (S : ascii -> bool) (r : regex) (s : string) :
  within S r -> in_lang r s -> all_chars S s = true.
Proof.
  intros Hw H. induction H; simpl in *; auto.
  - now rewrite (Hw c H).
  - destruct Hw as [H1 H2]. rewrite all_chars_app.
    now rewrite IHin_lang1, IHin_lang2.
  - now apply IHin_lang.
  - now apply IHin_lang.
  - rewrite all_chars_app. now rewrite IHin_lang1, IHin_lang2.
Qed.

Lemma in_lang_star_class (S : ascii -> bool) (s : string) :
  in_lang (Star (Class S)) s <-> all_chars S s = true.
Proof.
  split.
  - apply in_lang_within. simpl. auto.
  - induction s as [|c s IH]; simpl; intros H; [constructor|].
    apply andb_true_iff in H. destruct H as [Hc Hs].
    change (String c s) with (String c "" ++ s)%string.
    constructor; [now constructor | now apply IH].
Qed.

Lemma some_char_all_chars (S : ascii -> bool) (s : string) :
  some_char (fun c => negb (S c)) s = negb (all_chars S s).
Proof.
  induction s as [|c s IH]; simpl; [reflexivity|].
  rewrite IH. now destruct (S c).
Qed.

(** ** What [strip] keeps *)

Lemma lstrip_first (s : string) (c : ascii) (rest : string) :
  lstrip s = String c rest -> is_space c = false.
Proof.
  induction s as [|b s IH]; simpl; [discriminate|].
  destruct (is_space b) eqn:E; [exact IH|].
  intros H. inversion H; now subst.
Qed.

Lemma rstrip_first (s : string) (c : ascii) (rest : string) :
  rstrip s = String c rest -> exists rest', s = String c rest'.
Proof.
  destruct s as [|b s]; simpl; [discriminate|].
  destruct (rstrip s); [destruct (is_space b); [discriminate|]|];
    intros H; inversion H; subst; eauto.
Qed.

Lemma strip_first (s : string) (c : ascii) (rest : string) :
  strip s = String c rest -> is_space c = false.
Proof.
  unfold strip. intros H.
  destruct (rstrip_first _ _ _ H) as [rest' E].
  exact (lstrip_first s c rest' E).
Qed.

Section StripKeeps.
Variable P : ascii -> bool.
Hypothesis P_not_space : forall c, P c = true -> is_space c = false.

Lemma some_char_lstrip (s : string) :
  some_char P (lstrip s) = some_char P s.
Proof.
  induction s as [|c s IH]; simpl; [reflexivity|].
  destruct (is_space c) eqn:E; [|reflexivity].
  rewrite IH. destruct (P c) eqn:Pc; [|reflexivity].
  apply P_not_space in Pc. congruence.
Qed.

Lemma some_char_rstrip (s : string) :
  some_char P (rstrip s) = some_char P s.
Proof.
  induction s as [|c s IH]; simpl; [reflexivity|].
  rewrite <- IH.
  destruct (rstrip s) as [|b r]; [|reflexivity].
  destruct (is_space c) eqn:E; simpl; [|reflexivity].
  destruct (P c) eqn:Pc; [|reflexivity].
  apply P_not_space in Pc. congruence.
Qed.

Lemma some_char_strip (s : string) :
  some_char P (strip s) = some_char P s.
Proof.
  unfold strip. now rewrite some_char_rstrip, some_char_lstrip.
Qed.
End StripKeeps.

Lemma not_separator_not_space (c : ascii) :
  negb (is_separator_char c) = true -> is_space c = false.
Proof.
  unfold is_separator_char. destruct (is_space c); [discriminate | auto].
Qed.

Lemma all_separators_strip (s : string) :
  all_chars is_separator_char (strip s) = all_chars is_separator_char s.
Proof.
  pose proof (some_char_strip (fun c => negb (is_separator_char c))
                not_separator_not_space s) as H.
  rewrite !some_char_all_chars in H.
  apply (f_equal negb) in H. now rewrite !negb_involutive in H.
Qed.

(** ** The three patterns *)

Lemma pattern3_spec (s : string) :
  matches pattern3 s = all_chars is_separator_char s.
Proof.
  destruct (all_chars is_separator_char s) eqn:E.
  - apply matches_spec, in_lang_star_class, E.
  - destruct (matches pattern3 s) eqn:M; [|reflexivity].
    apply matches_spec, in_lang_star_class in M. congruence.
Qed.

Lemma pattern1_within : within is_separator_char pattern1.
Proof.
  assert (Hws : forall c, is_space c = true -> is_separator_char c = true)
    by (intros c H; unfold is_separator_char; now rewrite H).
  assert (Hpipe : forall c, Ascii.eqb "|" c = true ->
                            is_separator_char c = true).
  { intros c H. apply Ascii.eqb_eq in H. subst c.
    unfold is_separator_char. now rewrite orb_true_r. }
  assert (Hmid : forall c,
             is_space c || Ascii.eqb c "-" || Ascii.eqb c ":" = true ->
             is_separator_char c = true).
  { intros c H. unfold is_separator_char.
    destruct (is_space c); [reflexivity|].
    destruct (Ascii.eqb c ":"); [now rewrite !orb_true_r|].
    destruct (Ascii.eqb c "-"); [now rewrite !orb_true_r|].
    discriminate. }
  simpl. auto 10.
Qed.

Lemma in_lang_eps_inv (s : string) : in_lang Eps s -> s = "".
Proof. intros H. now inversion H. Qed.

Lemma in_lang_class_inv (S : ascii -> bool) (s : string) :
  in_lang (Class S) s -> exists c, s = String c "" /\ S c = true.
Proof. intros H. inversion H; subst. eauto. Qed.

Lemma in_lang_alt_inv (r1 r2 : regex) (s : string) :
  in_lang (Alt r1 r2) s -> in_lang r1 s \/ in_lang r2 s.
Proof. intros H. inversion H; subst; auto. Qed.

Lemma in_lang_cat_inv (r1 r2 : regex) (s : string) :
  in_lang (Cat r1 r2) s ->
  exists s1 s2, s = (s1 ++ s2)%string /\ in_lang r1 s1 /\ in_lang r2 s2.
Proof. intros H. inversion H; subst. eauto. Qed.

Lemma cat_star_class_first (S : ascii -> bool) (r : regex) (s : string) :
  in_lang (Cat (Star (Class S)) r) s ->
  (exists c rest, s = String c rest /\ S c = true) \/ in_lang r s.
Proof.
  intros H. apply in_lang_cat_inv in H.
  destruct H as (s1 & s2 & -> & H1 & H2).
  destruct s1 as [|c s1]; [now right|].
  left. exists c, (s1 ++ s2)%string. split; [reflexivity|].
  apply in_lang_star_class in H1. simpl in H1.
  now apply andb_true_iff in H1.
Qed.

Lemma cat_chr_first (q : ascii) (r : regex) (s : string) :
  in_lang (Cat (Chr q) r) s -> exists rest, s = String q rest.
Proof.
  intros H. apply in_lang_cat_inv in H.
  destruct H as (s1 & s2 & -> & H1 & H2).
  apply in_lang_class_inv in H1. destruct H1 as (c & -> & Hq).
  apply Ascii.eqb_eq in Hq. subst c. simpl. eauto.
Qed.

Lemma cat_opt_chr_first (q : ascii) (r : regex) (s : string) :
  in_lang (Cat (Opt (Chr q)) r) s ->
  (exists rest, s = String q rest) \/ in_lang r s.
Proof.
  intros H. apply in_lang_cat_inv in H.
  destruct H as (s1 & s2 & -> & H1 & H2).
  apply in_lang_alt_inv in H1. destruct H1 as [H1 | H1].
  - apply in_lang_eps_inv in H1. subst s1. now right.
  - apply in_lang_class_inv in H1. destruct H1 as (c & -> & Hq).
    apply Ascii.eqb_eq in Hq. subst c. simpl. eauto.
Qed.

(** A string matched by pattern 2 starts with white space, a double
    quote or a colon. *)
Lemma pattern2_first (s : string) :
  matches pattern2 s = true ->
  exists c rest, s = String c rest
                 /\ (is_space c = true \/ c = dquote \/ c = ":"%char).
Proof.
  intros H. apply matches_spec in H. unfold pattern2 in H.
  apply cat_star_class_first in H.
  destruct H as [(c & rest & -> & Hc) | H]; [eauto|].
  apply cat_opt_chr_first in H. destruct H as [[rest ->] | H]; [eauto 6|].
  apply cat_chr_first in H. destruct H as [rest ->]. eauto 6.
Qed.

Lemma pattern1_in_pattern3 (s : string) :
  matches pattern1 s = true -> matches pattern3 s = true.
Proof.
  intros H. rewrite pattern3_spec.
  apply matches_spec in H.
  exact (in_lang_within is_separator_char pattern1 s pattern1_within H).
Qed.

Lemma keep_line_without_pattern1 (line : string) :
  keep_line line
  = negb (matches pattern2 (strip line)
          || all_chars is_separator_char line).
Proof.
  unfold keep_line. rewrite <- all_separators_strip, <- pattern3_spec.
  destruct (matches pattern1 (strip line)) eqn:M1; [|reflexivity].
  rewrite (pattern1_in_pattern3 _ M1). simpl. now rewrite orb_true_r.
Qed.

(** X15: a line made only of white space and of the characters pipe,
    double quote, colon, dash and comma is dropped, whatever its
    layout; the empty line and the markdown separator line are such
    lines. *)
Theorem X15_separator_line_is_dropped (line : string) :
  all_chars is_separator_char line = true -> keep_line line = false.
Proof.
  intros H. rewrite keep_line_without_pattern1, H.
  now rewrite orb_true_r.
Qed.

Lemma X15_separator_line_is_dropped_witness :
  keep_line "|:----|:-----------|" = false.
Proof.
  apply X15_separator_line_is_dropped. reflexivity.
Defined.

(** X16: a line whose first character after the leading white space is
    neither a double quote nor a colon is kept exactly when it holds a
    character other than white space, pipe, double quote, colon, dash
    and comma. *)
Theorem X16_content_line_is_kept (line : string) (c : ascii) (rest : string) :
  strip line = String c rest ->
  c <> dquote -> c <> ":"%char ->
  (keep_line line = true
   <-> some_char (fun b => negb (is_separator_char b)) line = true).
Proof.
  intros Hs Hq Hc.
  assert (H2 : matches pattern2 (strip line) = false).
  { destruct (matches pattern2 (strip line)) eqn:M; [|reflexivity].
    destruct (pattern2_first _ M) as (b & r & E & Hb).
    rewrite Hs in E. inversion E; subst b r.
    pose proof (strip_first line c rest Hs) as Hsp.
    destruct Hb as [Hb | [Hb | Hb]]; congruence. }
  rewrite keep_line_without_pattern1, H2, some_char_all_chars. simpl.
  tauto.
Qed.

Lemma X16_content_line_is_kept_witness :
  keep_line "| nan | Table Name | ACCOUNT |" = true.
Proof.
  apply (X16_content_line_is_kept "| nan | Table Name | ACCOUNT |"
           "|"%char " nan | Table Name | ACCOUNT |").
  - reflexivity.
  - discriminate.
  - discriminate.
  - reflexivity.
Defined.

(** X17: pattern 1 never decides: every line it matches is matched by
    pattern 3 as well, so a line is dropped exactly when all its
    characters are separator characters or its stripped form matches
    pattern 2. *)
Theorem X17_pattern1_is_redundant (line : string) :
  (matches pattern1 (strip line) = true ->
   matches pattern3 (strip line) = true)
  /\ (keep_line line = false
      <-> all_chars is_separator_char line = true
          \/ matches pattern2 (strip line) = true).
Proof.
  split; [apply pattern1_in_pattern3|].
  rewrite keep_line_without_pattern1, negb_false_iff, orb_true_iff. tauto.
Qed.

(** * What every stored entry satisfies *)

Section Entries.
Variable Q : FieldInfo -> Prop.
Hypothesis Q_created : forall row,
  Q (mkFieldInfo (col3 row) (col4 row) (norm_foreign_key (col5 row))).
Hypothesis Q_appended : forall e0 d,
  Q e0 ->
  Q (mkFieldInfo (f_type e0) (f_description e0 ++ " " ++ d)%string
       (f_foreign_key e0)).

Let entries_ok (kv : string * TableMetadata) : Prop :=
  forall sec, Forall (fun ne => Q (snd ne)) (fields_of sec (snd kv)).

Lemma entries_ok_step (st : State) (row : Row) (st' : State) :
  Forall entries_ok (metadata st) -> metadata_step st row st' ->
  Forall entries_ok (metadata st').
Proof.
  intros Hall [[-> _] | [[-> _] | H]].
  - exact Hall.
  - apply dict_set_Forall; [exact Hall|].
    intros []; constructor.
  - destruct H as (t & rec & rec' & _ & _ & Hget & -> & _ & Hfields).
    apply dict_set_Forall; [exact Hall|].
    apply dict_get_In in Hget.
    rewrite Forall_forall in Hall. pose proof (Hall _ Hget) as Hrec.
    intros sec. simpl.
    destruct (Hfields sec) as [-> | (name & e & -> & He)]; [apply Hrec|].
    apply dict_set_Forall; [apply Hrec|]. simpl.
    destruct He as [-> | (e0 & Hbefore & ->)]; [apply Q_created|].
    apply Q_appended. apply dict_get_In in Hbefore.
    specialize (Hrec sec). rewrite Forall_forall in Hrec.
    exact (Hrec _ Hbefore).
Qed.

Lemma reachable_entries (st : State) (t : string) (rec : TableMetadata)
  (sec : section) (name : string) (fi : FieldInfo) :
  reachable st ->
  Dict.get t (metadata st) = Some rec ->
  Dict.get name (fields_of sec rec) = Some fi ->
  Q fi.
Proof.
  intros Hr Hrec Hfi.
  assert (Hall : Forall entries_ok (metadata st)).
  { clear Hrec Hfi.
    induction Hr as [|st row next st' _ IH Hstep|st row next e st' _ IH Hstep].
    - constructor.
    - pose proof (process_row_metadata_step st row next) as H.
      rewrite Hstep in H. exact (entries_ok_step st row st' IH H).
    - pose proof (process_row_metadata_step st row next) as H.
      rewrite Hstep in H. exact (entries_ok_step st row st' IH H). }
  apply dict_get_In in Hrec, Hfi.
  rewrite Forall_forall in Hall. specialize (Hall _ Hrec sec).
  rewrite Forall_forall in Hall. exact (Hall _ Hfi).
Qed.
End Entries.

(** X18: no entry of a reachable mapping, in the key or in the normal
    fields, has ["nan"] as its foreign key: the normalisation made when
    the entry is created is never undone by a continuation row. *)
Theorem X18_foreign_key_is_never_nan (st : State) (t : string)
  (rec : TableMetadata) (sec : section) (name : string) (fi : FieldInfo) :
  reachable st ->
  Dict.get t (metadata st) = Some rec ->
  Dict.get name (fields_of sec rec) = Some fi ->
  f_foreign_key fi <> "nan".
Proof.
  apply (reachable_entries (fun e => f_foreign_key e <> "nan")).
  - intros row. simpl. unfold norm_foreign_key.
    destruct (String.eqb (col5 row) "nan") eqn:E; [discriminate|].
    now apply String.eqb_neq.
  - intros e0 d H. exact H.
Qed.

Lemma X18_foreign_key_is_never_nan_witness :
  f_foreign_key (mkFieldInfo "DATE" "Opening" "") <> "nan".
Proof.
  apply (X18_foreign_key_is_never_nan (final_state [doc_account]) "T"
           (mkTableMetadata "T" None None None
              [("ACCOUNT_OPEN_DATE_TIMESTAMP",
                mkFieldInfo "DATE" "Opening" "")]
              [("status",
                mkFieldInfo "CHAR" "Current value of account."
                  "STATUS_REF")])
           KeyFields "ACCOUNT_OPEN_DATE_TIMESTAMP").
  - apply reachable_final_state.
  - reflexivity.
  - reflexivity.
Defined.
